(** * The ext4 superblock decoder of go-ext4 (superblock.go)

    A shallow embedding of [ParseSuperblock], of the accessors of
    [Superblock] and of the feature-flag registry, together with the parts
    of Go's [io], [encoding/binary], [math] and of go-logging that they
    call.  Unsigned Go integers are [Z] values in their range, bytes are
    [Byte.byte], slices are lists, Go maps are [gmap]s.  A panic is an
    outcome of its own, next to a normal return.  The time accessors and the
    text [Dump] prints are left out. *)

From Stdlib Require Import ZArith Lia List String Sorted.
From coqutil Require Import Byte Word.LittleEndianList.
From stdpp Require Import gmap strings.
Import ListNotations.
Local Open Scope Z_scope.

(** ** Constants of the package *)

Definition Ext4Magic : Z := 0xef53.
Definition SuperblockSize : nat := 1024.
Definition Superblock0Offset : Z := 1024.

Definition SbRevlevelGoodOldRev : Z := 0x0.
Definition SbRevlevelDynamicRev : Z := 0x1.

(** ** Fixed-width integers *)

(** [is_uint w z]: [z] is a value of Go's unsigned type of [w] bits. *)
Definition is_uint (w : Z) (z : Z) : Prop := 0 <= z < 2 ^ w.

(** The conversion [int32(x)] of a [uint32]: same bits, two's complement. *)
Definition int32_of_uint32 (x : Z) : Z :=
  if x <? 2 ^ 31 then x else x - 2 ^ 32.

(** The conversion [uint32(x)] of an [int32]. *)
Definition uint32_of_int32 (x : Z) : Z := x mod 2 ^ 32.

(** ** encoding/binary: the little-endian byte order *)

Module LittleEndian.

(** [b[i]] widened to an unsigned integer.  Go panics when [i] is out of range;
    every caller below checks the length of [b] before it indexes. *)
Definition index (b : list byte) (i : nat) : Z :=
  byte.unsigned (nth i b Byte.x00).

Definition Uint16 (b : list byte) : Z :=
  Z.lor (index b 0) (Z.shiftl (index b 1) 8).

Definition Uint32 (b : list byte) : Z :=
  Z.lor (Z.lor (Z.lor (index b 0) (Z.shiftl (index b 1) 8))
               (Z.shiftl (index b 2) 16))
        (Z.shiftl (index b 3) 24).

Definition Uint64 (b : list byte) : Z :=
  Z.lor (Z.lor (Z.lor (Z.lor (Z.lor (Z.lor (Z.lor
    (index b 0)
    (Z.shiftl (index b 1) 8))
    (Z.shiftl (index b 2) 16))
    (Z.shiftl (index b 3) 24))
    (Z.shiftl (index b 4) 32))
    (Z.shiftl (index b 5) 40))
    (Z.shiftl (index b 6) 48))
    (Z.shiftl (index b 7) 56).

(** [PutUintN] writes [byte(v)], [byte(v >> 8)], ... *)
Definition PutUint16 (v : Z) : list byte :=
  [byte.of_Z v; byte.of_Z (Z.shiftr v 8)].

Definition PutUint32 (v : Z) : list byte :=
  [byte.of_Z v; byte.of_Z (Z.shiftr v 8);
   byte.of_Z (Z.shiftr v 16); byte.of_Z (Z.shiftr v 24)].

Definition PutUint64 (v : Z) : list byte :=
  [byte.of_Z v; byte.of_Z (Z.shiftr v 8);
   byte.of_Z (Z.shiftr v 16); byte.of_Z (Z.shiftr v 24);
   byte.of_Z (Z.shiftr v 32); byte.of_Z (Z.shiftr v 40);
   byte.of_Z (Z.shiftr v 48); byte.of_Z (Z.shiftr v 56)].

End LittleEndian.

(** ** The struct *)

Record Superblock := {
  (* 0x00 *)
  SInodesCount : Z;               (* uint32 *)
  SBlocksCountLo : Z;             (* uint32 *)
  SRBlocksCountLo : Z;            (* uint32 *)
  SFreeBlocksCountLo : Z;         (* uint32 *)
  (* 0x10 *)
  SFreeInodesCount : Z;           (* uint32 *)
  SFirstDataBlock : Z;            (* uint32 *)
  SLogBlockSize : Z;              (* uint32 *)
  SLogClusterSize : Z;            (* uint32 *)
  (* 0x20 *)
  SBlocksPerGroup : Z;            (* uint32 *)
  SClustersPerGroup : Z;          (* uint32 *)
  SInodesPerGroup : Z;            (* uint32 *)
  SMtime : Z;                     (* uint32 *)
  (* 0x30 *)
  SWtime : Z;                     (* uint32 *)
  SMntCount : Z;                  (* uint16 *)
  SMaxMntCount : Z;               (* uint16 *)
  SMagic : Z;                     (* uint16 *)
  SState : Z;                     (* uint16 *)
  SErrors : Z;                    (* uint16 *)
  SMinorRevLevel : Z;             (* uint16 *)
  (* 0x40 *)
  SLastcheck : Z;                 (* uint32 *)
  SCheckinterval : Z;             (* uint32 *)
  SCreatorOs : Z;                 (* uint32 *)
  SRevLevel : Z;                  (* uint32 *)
  (* 0x50 *)
  SDefResuid : Z;                 (* uint16 *)
  SDefResgid : Z;                 (* uint16 *)
  SFirstIno : Z;                  (* uint32 *)
  SInodeSize : Z;                 (* uint16 *)
  SBlockGroupNr : Z;              (* uint16 *)
  SFeatureCompat : Z;             (* uint32 *)
  (* 0x60 *)
  SFeatureIncompat : Z;           (* uint32 *)
  SFeatureRoCompat : Z;           (* uint32 *)
  (* 0x68 *)
  SUuid : list Z;                 (* [16]uint8 *)
  (* 0x78 *)
  SVolumeName : list Z;           (* [16]byte *)
  (* 0x88 *)
  SLastMounted : list Z;          (* [64]byte *)
  (* 0xC8 *)
  SAlgorithmUsageBitmap : Z;      (* uint32 *)
  SPreallocBlocks : Z;            (* uint8 *)
  SPreallocDirBlocks : Z;         (* uint8 *)
  SReservedGdtBlocks : Z;         (* uint16 *)
  (* 0xD0 *)
  SJournalUuid : list Z;          (* [16]uint8 *)
  (* 0xE0 *)
  SJournalInum : Z;               (* uint32 *)
  SJournalDev : Z;                (* uint32 *)
  SLastOrphan : Z;                (* uint32 *)
  SHashSeed : list Z;             (* [4]uint32 *)
  SDefHashVersion : Z;            (* uint8 *)
  SJnlBackupType : Z;             (* uint8 *)
  SDescSize : Z;                  (* uint16 *)
  (* 0x100 *)
  SDefaultMountOpts : Z;          (* uint32 *)
  SFirstMetaBg : Z;               (* uint32 *)
  SMkfsTime : Z;                  (* uint32 *)
  SJnlBlocks : list Z;            (* [17]uint32 *)
  (* 0x150 *)
  SBlocksCountHi : Z;             (* uint32 *)
  SRBlocksCountHi : Z;            (* uint32 *)
  SFreeBlocksCountHi : Z;         (* uint32 *)
  SMinExtraIsize : Z;             (* uint16 *)
  SWantExtraIsize : Z;            (* uint16 *)
  SFlags : Z;                     (* uint32 *)
  SRaidStride : Z;                (* uint16 *)
  SMmpInterval : Z;               (* uint16 *)
  SMmpBlock : Z;                  (* uint64 *)
  SRaidStripeWidth : Z;           (* uint32 *)
  SLogGroupsPerFlex : Z;          (* uint8 *)
  SChecksumType : Z;              (* uint8 *)
  SEncryptionLevel : Z;           (* uint8 *)
  SReservedPad : Z;               (* uint8 *)
  SKbytesWritten : Z;             (* uint64 *)
  SSnapshotInum : Z;              (* uint32 *)
  SSnapshotId : Z;                (* uint32 *)
  SSnapshotRBlocksCount : Z;      (* uint64 *)
  SSnapshotList : Z;              (* uint32 *)
  SErrorCount : Z;                (* uint32 *)
  SFirstErrorTime : Z;            (* uint32 *)
  SFirstErrorIno : Z;             (* uint32 *)
  SFirstErrorBlock : Z;           (* uint64 *)
  SFirstErrorFunc : list Z;       (* [32]uint8 *)
  SFirstErrorLine : Z;            (* uint32 *)
  SLastErrorTime : Z;             (* uint32 *)
  SLastErrorIno : Z;              (* uint32 *)
  SLastErrorLine : Z;             (* uint32 *)
  SLastErrorBlock : Z;            (* uint64 *)
  SLastErrorFunc : list Z;        (* [32]uint8 *)
  SMountOpts : list Z;            (* [64]uint8 *)
  SUsrQuotaInum : Z;              (* uint32 *)
  SGrpQuotaInum : Z;              (* uint32 *)
  SOverheadClusters : Z;          (* uint32 *)
  SBackupBgs : list Z;            (* [2]uint32 *)
  SEncryptAlgos : list Z;         (* [4]uint8 *)
  SEncryptPwSalt : list Z;        (* [16]uint8 *)
  SLpfIno : Z;                    (* uint32 *)
  SPrjQuotaInum : Z;              (* uint32 *)
  SChecksumSeed : Z;              (* uint32 *)
  SWtimeHi : Z;                   (* uint8 *)
  SMtimeHi : Z;                   (* uint8 *)
  SMkfsTimeHi : Z;                (* uint8 *)
  SLastcheckHi : Z;               (* uint8 *)
  SFirstErrorTimeHi : Z;          (* uint8 *)
  SLastErrorTimeHi : Z;           (* uint8 *)
  SPad : list Z;                  (* [2]uint8 *)
  SReserved : list Z;             (* [96]uint32 *)
  SChecksum : Z                   (* int32 *)
}.
(** [new(Superblock)]: the zero value. *)
Definition new_Superblock : Superblock := {|
  SInodesCount := 0;
  SBlocksCountLo := 0;
  SRBlocksCountLo := 0;
  SFreeBlocksCountLo := 0;
  SFreeInodesCount := 0;
  SFirstDataBlock := 0;
  SLogBlockSize := 0;
  SLogClusterSize := 0;
  SBlocksPerGroup := 0;
  SClustersPerGroup := 0;
  SInodesPerGroup := 0;
  SMtime := 0;
  SWtime := 0;
  SMntCount := 0;
  SMaxMntCount := 0;
  SMagic := 0;
  SState := 0;
  SErrors := 0;
  SMinorRevLevel := 0;
  SLastcheck := 0;
  SCheckinterval := 0;
  SCreatorOs := 0;
  SRevLevel := 0;
  SDefResuid := 0;
  SDefResgid := 0;
  SFirstIno := 0;
  SInodeSize := 0;
  SBlockGroupNr := 0;
  SFeatureCompat := 0;
  SFeatureIncompat := 0;
  SFeatureRoCompat := 0;
  SUuid := repeat 0 16;
  SVolumeName := repeat 0 16;
  SLastMounted := repeat 0 64;
  SAlgorithmUsageBitmap := 0;
  SPreallocBlocks := 0;
  SPreallocDirBlocks := 0;
  SReservedGdtBlocks := 0;
  SJournalUuid := repeat 0 16;
  SJournalInum := 0;
  SJournalDev := 0;
  SLastOrphan := 0;
  SHashSeed := repeat 0 4;
  SDefHashVersion := 0;
  SJnlBackupType := 0;
  SDescSize := 0;
  SDefaultMountOpts := 0;
  SFirstMetaBg := 0;
  SMkfsTime := 0;
  SJnlBlocks := repeat 0 17;
  SBlocksCountHi := 0;
  SRBlocksCountHi := 0;
  SFreeBlocksCountHi := 0;
  SMinExtraIsize := 0;
  SWantExtraIsize := 0;
  SFlags := 0;
  SRaidStride := 0;
  SMmpInterval := 0;
  SMmpBlock := 0;
  SRaidStripeWidth := 0;
  SLogGroupsPerFlex := 0;
  SChecksumType := 0;
  SEncryptionLevel := 0;
  SReservedPad := 0;
  SKbytesWritten := 0;
  SSnapshotInum := 0;
  SSnapshotId := 0;
  SSnapshotRBlocksCount := 0;
  SSnapshotList := 0;
  SErrorCount := 0;
  SFirstErrorTime := 0;
  SFirstErrorIno := 0;
  SFirstErrorBlock := 0;
  SFirstErrorFunc := repeat 0 32;
  SFirstErrorLine := 0;
  SLastErrorTime := 0;
  SLastErrorIno := 0;
  SLastErrorLine := 0;
  SLastErrorBlock := 0;
  SLastErrorFunc := repeat 0 32;
  SMountOpts := repeat 0 64;
  SUsrQuotaInum := 0;
  SGrpQuotaInum := 0;
  SOverheadClusters := 0;
  SBackupBgs := repeat 0 2;
  SEncryptAlgos := repeat 0 4;
  SEncryptPwSalt := repeat 0 16;
  SLpfIno := 0;
  SPrjQuotaInum := 0;
  SChecksumSeed := 0;
  SWtimeHi := 0;
  SMtimeHi := 0;
  SMkfsTimeHi := 0;
  SLastcheckHi := 0;
  SFirstErrorTimeHi := 0;
  SLastErrorTimeHi := 0;
  SPad := repeat 0 2;
  SReserved := repeat 0 96;
  SChecksum := 0
|}.

(** ** encoding/binary: sizes by reflection

    [binary.Read] sizes its buffer from the type of the value it fills:
    [dataSize] of a struct is the sum of the sizes of its fields, that of an
    array the element size times the length. *)

Inductive Kind :=
| Uint8 | Uint16 | Uint32 | Uint64 | Int32
| Array (n : nat) (elem : Kind).

Fixpoint sizeof (k : Kind) : nat :=
  match k with
  | Uint8 => 1
  | Uint16 => 2
  | Uint32 | Int32 => 4
  | Uint64 => 8
  | Array n elem => n * sizeof elem
  end.

Definition struct_size (fields : list (string * Kind)) : nat :=
  fold_left (fun sum f => (sum + sizeof (snd f))%nat) fields 0%nat.

(** The byte offset of the field called [name]: the sizes of the fields
    declared before it. *)
Fixpoint offsetof (fields : list (string * Kind)) (name : string) : option nat :=
  match fields with
  | [] => None
  | (n, k) :: rest =>
      if String.eqb n name then Some 0%nat
      else option_map (Nat.add (sizeof k)) (offsetof rest name)
  end.

(** The declaration of [Superblock], as reflection presents it. *)
Definition Superblock_type : list (string * Kind) :=
  [ ("SInodesCount", Uint32)
  ; ("SBlocksCountLo", Uint32)
  ; ("SRBlocksCountLo", Uint32)
  ; ("SFreeBlocksCountLo", Uint32)
  ; ("SFreeInodesCount", Uint32)
  ; ("SFirstDataBlock", Uint32)
  ; ("SLogBlockSize", Uint32)
  ; ("SLogClusterSize", Uint32)
  ; ("SBlocksPerGroup", Uint32)
  ; ("SClustersPerGroup", Uint32)
  ; ("SInodesPerGroup", Uint32)
  ; ("SMtime", Uint32)
  ; ("SWtime", Uint32)
  ; ("SMntCount", Uint16)
  ; ("SMaxMntCount", Uint16)
  ; ("SMagic", Uint16)
  ; ("SState", Uint16)
  ; ("SErrors", Uint16)
  ; ("SMinorRevLevel", Uint16)
  ; ("SLastcheck", Uint32)
  ; ("SCheckinterval", Uint32)
  ; ("SCreatorOs", Uint32)
  ; ("SRevLevel", Uint32)
  ; ("SDefResuid", Uint16)
  ; ("SDefResgid", Uint16)
  ; ("SFirstIno", Uint32)
  ; ("SInodeSize", Uint16)
  ; ("SBlockGroupNr", Uint16)
  ; ("SFeatureCompat", Uint32)
  ; ("SFeatureIncompat", Uint32)
  ; ("SFeatureRoCompat", Uint32)
  ; ("SUuid", Array 16 Uint8)
  ; ("SVolumeName", Array 16 Uint8)
  ; ("SLastMounted", Array 64 Uint8)
  ; ("SAlgorithmUsageBitmap", Uint32)
  ; ("SPreallocBlocks", Uint8)
  ; ("SPreallocDirBlocks", Uint8)
  ; ("SReservedGdtBlocks", Uint16)
  ; ("SJournalUuid", Array 16 Uint8)
  ; ("SJournalInum", Uint32)
  ; ("SJournalDev", Uint32)
  ; ("SLastOrphan", Uint32)
  ; ("SHashSeed", Array 4 Uint32)
  ; ("SDefHashVersion", Uint8)
  ; ("SJnlBackupType", Uint8)
  ; ("SDescSize", Uint16)
  ; ("SDefaultMountOpts", Uint32)
  ; ("SFirstMetaBg", Uint32)
  ; ("SMkfsTime", Uint32)
  ; ("SJnlBlocks", Array 17 Uint32)
  ; ("SBlocksCountHi", Uint32)
  ; ("SRBlocksCountHi", Uint32)
  ; ("SFreeBlocksCountHi", Uint32)
  ; ("SMinExtraIsize", Uint16)
  ; ("SWantExtraIsize", Uint16)
  ; ("SFlags", Uint32)
  ; ("SRaidStride", Uint16)
  ; ("SMmpInterval", Uint16)
  ; ("SMmpBlock", Uint64)
  ; ("SRaidStripeWidth", Uint32)
  ; ("SLogGroupsPerFlex", Uint8)
  ; ("SChecksumType", Uint8)
  ; ("SEncryptionLevel", Uint8)
  ; ("SReservedPad", Uint8)
  ; ("SKbytesWritten", Uint64)
  ; ("SSnapshotInum", Uint32)
  ; ("SSnapshotId", Uint32)
  ; ("SSnapshotRBlocksCount", Uint64)
  ; ("SSnapshotList", Uint32)
  ; ("SErrorCount", Uint32)
  ; ("SFirstErrorTime", Uint32)
  ; ("SFirstErrorIno", Uint32)
  ; ("SFirstErrorBlock", Uint64)
  ; ("SFirstErrorFunc", Array 32 Uint8)
  ; ("SFirstErrorLine", Uint32)
  ; ("SLastErrorTime", Uint32)
  ; ("SLastErrorIno", Uint32)
  ; ("SLastErrorLine", Uint32)
  ; ("SLastErrorBlock", Uint64)
  ; ("SLastErrorFunc", Array 32 Uint8)
  ; ("SMountOpts", Array 64 Uint8)
  ; ("SUsrQuotaInum", Uint32)
  ; ("SGrpQuotaInum", Uint32)
  ; ("SOverheadClusters", Uint32)
  ; ("SBackupBgs", Array 2 Uint32)
  ; ("SEncryptAlgos", Array 4 Uint8)
  ; ("SEncryptPwSalt", Array 16 Uint8)
  ; ("SLpfIno", Uint32)
  ; ("SPrjQuotaInum", Uint32)
  ; ("SChecksumSeed", Uint32)
  ; ("SWtimeHi", Uint8)
  ; ("SMtimeHi", Uint8)
  ; ("SMkfsTimeHi", Uint8)
  ; ("SLastcheckHi", Uint8)
  ; ("SFirstErrorTimeHi", Uint8)
  ; ("SLastErrorTimeHi", Uint8)
  ; ("SPad", Array 2 Uint8)
  ; ("SReserved", Array 96 Uint32)
  ; ("SChecksum", Int32)
  ]%string.

Definition dataSize : nat := struct_size Superblock_type.

(** ** encoding/binary: the decoder

    A decoder is a buffer and a read position.  Every method reads at the
    position and advances it; indexing past the buffer is a run-time panic,
    [None] here. *)

Record decoder := { buf : list byte; offset : nat }.

Definition Dec (A : Type) : Type := decoder -> option (A * decoder).

Definition ret {A} (a : A) : Dec A := fun d => Some (a, d).

Definition bind {A B} (m : Dec A) (f : A -> Dec B) : Dec B :=
  fun d => match m d with
           | Some (a, d') => f a d'
           | None => None
           end.

Notation "x <- m ;; k" := (bind m (fun x => k))
  (at level 100, m at next level, right associativity).

(** [b[lo : lo+n]] of a buffer, without the bounds check. *)
Definition bytes_at (b : list byte) (lo n : nat) : list byte :=
  firstn n (skipn lo b).

(** [d.buf[d.offset : d.offset+n]], then [d.offset += n]. *)
Definition d_next (n : nat) : Dec (list byte) := fun d =>
  if (offset d + n <=? length (buf d))%nat
  then Some (bytes_at (buf d) (offset d) n,
             {| buf := buf d; offset := (offset d + n)%nat |})
  else None.

Definition d_uint8 : Dec Z :=
  b <- d_next 1 ;; ret (LittleEndian.index b 0).

Definition d_uint16 : Dec Z :=
  b <- d_next 2 ;; ret (LittleEndian.Uint16 b).

Definition d_uint32 : Dec Z :=
  b <- d_next 4 ;; ret (LittleEndian.Uint32 b).

Definition d_uint64 : Dec Z :=
  b <- d_next 8 ;; ret (LittleEndian.Uint64 b).

Definition d_int32 : Dec Z :=
  x <- d_uint32 ;; ret (int32_of_uint32 x).

(** [d.value] at an array: the elements in index order. *)
Fixpoint d_array {A} (n : nat) (elem : Dec A) : Dec (list A) :=
  match n with
  | O => ret []
  | S n' => x <- elem ;; xs <- d_array n' elem ;; ret (x :: xs)
  end.

(** [d.value] at [Superblock]: the fields in declaration order, none of them
    blank, so none is skipped. *)
Definition d_Superblock : Dec Superblock :=
  vSInodesCount <- d_uint32 ;;
  vSBlocksCountLo <- d_uint32 ;;
  vSRBlocksCountLo <- d_uint32 ;;
  vSFreeBlocksCountLo <- d_uint32 ;;
  vSFreeInodesCount <- d_uint32 ;;
  vSFirstDataBlock <- d_uint32 ;;
  vSLogBlockSize <- d_uint32 ;;
  vSLogClusterSize <- d_uint32 ;;
  vSBlocksPerGroup <- d_uint32 ;;
  vSClustersPerGroup <- d_uint32 ;;
  vSInodesPerGroup <- d_uint32 ;;
  vSMtime <- d_uint32 ;;
  vSWtime <- d_uint32 ;;
  vSMntCount <- d_uint16 ;;
  vSMaxMntCount <- d_uint16 ;;
  vSMagic <- d_uint16 ;;
  vSState <- d_uint16 ;;
  vSErrors <- d_uint16 ;;
  vSMinorRevLevel <- d_uint16 ;;
  vSLastcheck <- d_uint32 ;;
  vSCheckinterval <- d_uint32 ;;
  vSCreatorOs <- d_uint32 ;;
  vSRevLevel <- d_uint32 ;;
  vSDefResuid <- d_uint16 ;;
  vSDefResgid <- d_uint16 ;;
  vSFirstIno <- d_uint32 ;;
  vSInodeSize <- d_uint16 ;;
  vSBlockGroupNr <- d_uint16 ;;
  vSFeatureCompat <- d_uint32 ;;
  vSFeatureIncompat <- d_uint32 ;;
  vSFeatureRoCompat <- d_uint32 ;;
  vSUuid <- d_array 16 d_uint8 ;;
  vSVolumeName <- d_array 16 d_uint8 ;;
  vSLastMounted <- d_array 64 d_uint8 ;;
  vSAlgorithmUsageBitmap <- d_uint32 ;;
  vSPreallocBlocks <- d_uint8 ;;
  vSPreallocDirBlocks <- d_uint8 ;;
  vSReservedGdtBlocks <- d_uint16 ;;
  vSJournalUuid <- d_array 16 d_uint8 ;;
  vSJournalInum <- d_uint32 ;;
  vSJournalDev <- d_uint32 ;;
  vSLastOrphan <- d_uint32 ;;
  vSHashSeed <- d_array 4 d_uint32 ;;
  vSDefHashVersion <- d_uint8 ;;
  vSJnlBackupType <- d_uint8 ;;
  vSDescSize <- d_uint16 ;;
  vSDefaultMountOpts <- d_uint32 ;;
  vSFirstMetaBg <- d_uint32 ;;
  vSMkfsTime <- d_uint32 ;;
  vSJnlBlocks <- d_array 17 d_uint32 ;;
  vSBlocksCountHi <- d_uint32 ;;
  vSRBlocksCountHi <- d_uint32 ;;
  vSFreeBlocksCountHi <- d_uint32 ;;
  vSMinExtraIsize <- d_uint16 ;;
  vSWantExtraIsize <- d_uint16 ;;
  vSFlags <- d_uint32 ;;
  vSRaidStride <- d_uint16 ;;
  vSMmpInterval <- d_uint16 ;;
  vSMmpBlock <- d_uint64 ;;
  vSRaidStripeWidth <- d_uint32 ;;
  vSLogGroupsPerFlex <- d_uint8 ;;
  vSChecksumType <- d_uint8 ;;
  vSEncryptionLevel <- d_uint8 ;;
  vSReservedPad <- d_uint8 ;;
  vSKbytesWritten <- d_uint64 ;;
  vSSnapshotInum <- d_uint32 ;;
  vSSnapshotId <- d_uint32 ;;
  vSSnapshotRBlocksCount <- d_uint64 ;;
  vSSnapshotList <- d_uint32 ;;
  vSErrorCount <- d_uint32 ;;
  vSFirstErrorTime <- d_uint32 ;;
  vSFirstErrorIno <- d_uint32 ;;
  vSFirstErrorBlock <- d_uint64 ;;
  vSFirstErrorFunc <- d_array 32 d_uint8 ;;
  vSFirstErrorLine <- d_uint32 ;;
  vSLastErrorTime <- d_uint32 ;;
  vSLastErrorIno <- d_uint32 ;;
  vSLastErrorLine <- d_uint32 ;;
  vSLastErrorBlock <- d_uint64 ;;
  vSLastErrorFunc <- d_array 32 d_uint8 ;;
  vSMountOpts <- d_array 64 d_uint8 ;;
  vSUsrQuotaInum <- d_uint32 ;;
  vSGrpQuotaInum <- d_uint32 ;;
  vSOverheadClusters <- d_uint32 ;;
  vSBackupBgs <- d_array 2 d_uint32 ;;
  vSEncryptAlgos <- d_array 4 d_uint8 ;;
  vSEncryptPwSalt <- d_array 16 d_uint8 ;;
  vSLpfIno <- d_uint32 ;;
  vSPrjQuotaInum <- d_uint32 ;;
  vSChecksumSeed <- d_uint32 ;;
  vSWtimeHi <- d_uint8 ;;
  vSMtimeHi <- d_uint8 ;;
  vSMkfsTimeHi <- d_uint8 ;;
  vSLastcheckHi <- d_uint8 ;;
  vSFirstErrorTimeHi <- d_uint8 ;;
  vSLastErrorTimeHi <- d_uint8 ;;
  vSPad <- d_array 2 d_uint8 ;;
  vSReserved <- d_array 96 d_uint32 ;;
  vSChecksum <- d_int32 ;;
  ret {|
    SInodesCount := vSInodesCount;
    SBlocksCountLo := vSBlocksCountLo;
    SRBlocksCountLo := vSRBlocksCountLo;
    SFreeBlocksCountLo := vSFreeBlocksCountLo;
    SFreeInodesCount := vSFreeInodesCount;
    SFirstDataBlock := vSFirstDataBlock;
    SLogBlockSize := vSLogBlockSize;
    SLogClusterSize := vSLogClusterSize;
    SBlocksPerGroup := vSBlocksPerGroup;
    SClustersPerGroup := vSClustersPerGroup;
    SInodesPerGroup := vSInodesPerGroup;
    SMtime := vSMtime;
    SWtime := vSWtime;
    SMntCount := vSMntCount;
    SMaxMntCount := vSMaxMntCount;
    SMagic := vSMagic;
    SState := vSState;
    SErrors := vSErrors;
    SMinorRevLevel := vSMinorRevLevel;
    SLastcheck := vSLastcheck;
    SCheckinterval := vSCheckinterval;
    SCreatorOs := vSCreatorOs;
    SRevLevel := vSRevLevel;
    SDefResuid := vSDefResuid;
    SDefResgid := vSDefResgid;
    SFirstIno := vSFirstIno;
    SInodeSize := vSInodeSize;
    SBlockGroupNr := vSBlockGroupNr;
    SFeatureCompat := vSFeatureCompat;
    SFeatureIncompat := vSFeatureIncompat;
    SFeatureRoCompat := vSFeatureRoCompat;
    SUuid := vSUuid;
    SVolumeName := vSVolumeName;
    SLastMounted := vSLastMounted;
    SAlgorithmUsageBitmap := vSAlgorithmUsageBitmap;
    SPreallocBlocks := vSPreallocBlocks;
    SPreallocDirBlocks := vSPreallocDirBlocks;
    SReservedGdtBlocks := vSReservedGdtBlocks;
    SJournalUuid := vSJournalUuid;
    SJournalInum := vSJournalInum;
    SJournalDev := vSJournalDev;
    SLastOrphan := vSLastOrphan;
    SHashSeed := vSHashSeed;
    SDefHashVersion := vSDefHashVersion;
    SJnlBackupType := vSJnlBackupType;
    SDescSize := vSDescSize;
    SDefaultMountOpts := vSDefaultMountOpts;
    SFirstMetaBg := vSFirstMetaBg;
    SMkfsTime := vSMkfsTime;
    SJnlBlocks := vSJnlBlocks;
    SBlocksCountHi := vSBlocksCountHi;
    SRBlocksCountHi := vSRBlocksCountHi;
    SFreeBlocksCountHi := vSFreeBlocksCountHi;
    SMinExtraIsize := vSMinExtraIsize;
    SWantExtraIsize := vSWantExtraIsize;
    SFlags := vSFlags;
    SRaidStride := vSRaidStride;
    SMmpInterval := vSMmpInterval;
    SMmpBlock := vSMmpBlock;
    SRaidStripeWidth := vSRaidStripeWidth;
    SLogGroupsPerFlex := vSLogGroupsPerFlex;
    SChecksumType := vSChecksumType;
    SEncryptionLevel := vSEncryptionLevel;
    SReservedPad := vSReservedPad;
    SKbytesWritten := vSKbytesWritten;
    SSnapshotInum := vSSnapshotInum;
    SSnapshotId := vSSnapshotId;
    SSnapshotRBlocksCount := vSSnapshotRBlocksCount;
    SSnapshotList := vSSnapshotList;
    SErrorCount := vSErrorCount;
    SFirstErrorTime := vSFirstErrorTime;
    SFirstErrorIno := vSFirstErrorIno;
    SFirstErrorBlock := vSFirstErrorBlock;
    SFirstErrorFunc := vSFirstErrorFunc;
    SFirstErrorLine := vSFirstErrorLine;
    SLastErrorTime := vSLastErrorTime;
    SLastErrorIno := vSLastErrorIno;
    SLastErrorLine := vSLastErrorLine;
    SLastErrorBlock := vSLastErrorBlock;
    SLastErrorFunc := vSLastErrorFunc;
    SMountOpts := vSMountOpts;
    SUsrQuotaInum := vSUsrQuotaInum;
    SGrpQuotaInum := vSGrpQuotaInum;
    SOverheadClusters := vSOverheadClusters;
    SBackupBgs := vSBackupBgs;
    SEncryptAlgos := vSEncryptAlgos;
    SEncryptPwSalt := vSEncryptPwSalt;
    SLpfIno := vSLpfIno;
    SPrjQuotaInum := vSPrjQuotaInum;
    SChecksumSeed := vSChecksumSeed;
    SWtimeHi := vSWtimeHi;
    SMtimeHi := vSMtimeHi;
    SMkfsTimeHi := vSMkfsTimeHi;
    SLastcheckHi := vSLastcheckHi;
    SFirstErrorTimeHi := vSFirstErrorTimeHi;
    SLastErrorTimeHi := vSLastErrorTimeHi;
    SPad := vSPad;
    SReserved := vSReserved;
    SChecksum := vSChecksum
  |}.

(** ** encoding/binary: the encoder

    The layout [binary.Write] gives a [Superblock]: the mirror image of the
    decoder.  The package itself never encodes; this is the encoder the
    round-trip property is stated against. *)

Definition e_uint8 (x : Z) : list byte := [byte.of_Z x].
Definition e_uint16 (x : Z) : list byte := LittleEndian.PutUint16 x.
Definition e_uint32 (x : Z) : list byte := LittleEndian.PutUint32 x.
Definition e_uint64 (x : Z) : list byte := LittleEndian.PutUint64 x.
Definition e_int32 (x : Z) : list byte := LittleEndian.PutUint32 (uint32_of_int32 x).

Definition e_array {A} (elem : A -> list byte) (xs : list A) : list byte :=
  concat (map elem xs).

Definition e_Superblock (sb : Superblock) : list byte :=
  e_uint32 (SInodesCount sb) ++
  e_uint32 (SBlocksCountLo sb) ++
  e_uint32 (SRBlocksCountLo sb) ++
  e_uint32 (SFreeBlocksCountLo sb) ++
  e_uint32 (SFreeInodesCount sb) ++
  e_uint32 (SFirstDataBlock sb) ++
  e_uint32 (SLogBlockSize sb) ++
  e_uint32 (SLogClusterSize sb) ++
  e_uint32 (SBlocksPerGroup sb) ++
  e_uint32 (SClustersPerGroup sb) ++
  e_uint32 (SInodesPerGroup sb) ++
  e_uint32 (SMtime sb) ++
  e_uint32 (SWtime sb) ++
  e_uint16 (SMntCount sb) ++
  e_uint16 (SMaxMntCount sb) ++
  e_uint16 (SMagic sb) ++
  e_uint16 (SState sb) ++
  e_uint16 (SErrors sb) ++
  e_uint16 (SMinorRevLevel sb) ++
  e_uint32 (SLastcheck sb) ++
  e_uint32 (SCheckinterval sb) ++
  e_uint32 (SCreatorOs sb) ++
  e_uint32 (SRevLevel sb) ++
  e_uint16 (SDefResuid sb) ++
  e_uint16 (SDefResgid sb) ++
  e_uint32 (SFirstIno sb) ++
  e_uint16 (SInodeSize sb) ++
  e_uint16 (SBlockGroupNr sb) ++
  e_uint32 (SFeatureCompat sb) ++
  e_uint32 (SFeatureIncompat sb) ++
  e_uint32 (SFeatureRoCompat sb) ++
  e_array e_uint8 (SUuid sb) ++
  e_array e_uint8 (SVolumeName sb) ++
  e_array e_uint8 (SLastMounted sb) ++
  e_uint32 (SAlgorithmUsageBitmap sb) ++
  e_uint8 (SPreallocBlocks sb) ++
  e_uint8 (SPreallocDirBlocks sb) ++
  e_uint16 (SReservedGdtBlocks sb) ++
  e_array e_uint8 (SJournalUuid sb) ++
  e_uint32 (SJournalInum sb) ++
  e_uint32 (SJournalDev sb) ++
  e_uint32 (SLastOrphan sb) ++
  e_array e_uint32 (SHashSeed sb) ++
  e_uint8 (SDefHashVersion sb) ++
  e_uint8 (SJnlBackupType sb) ++
  e_uint16 (SDescSize sb) ++
  e_uint32 (SDefaultMountOpts sb) ++
  e_uint32 (SFirstMetaBg sb) ++
  e_uint32 (SMkfsTime sb) ++
  e_array e_uint32 (SJnlBlocks sb) ++
  e_uint32 (SBlocksCountHi sb) ++
  e_uint32 (SRBlocksCountHi sb) ++
  e_uint32 (SFreeBlocksCountHi sb) ++
  e_uint16 (SMinExtraIsize sb) ++
  e_uint16 (SWantExtraIsize sb) ++
  e_uint32 (SFlags sb) ++
  e_uint16 (SRaidStride sb) ++
  e_uint16 (SMmpInterval sb) ++
  e_uint64 (SMmpBlock sb) ++
  e_uint32 (SRaidStripeWidth sb) ++
  e_uint8 (SLogGroupsPerFlex sb) ++
  e_uint8 (SChecksumType sb) ++
  e_uint8 (SEncryptionLevel sb) ++
  e_uint8 (SReservedPad sb) ++
  e_uint64 (SKbytesWritten sb) ++
  e_uint32 (SSnapshotInum sb) ++
  e_uint32 (SSnapshotId sb) ++
  e_uint64 (SSnapshotRBlocksCount sb) ++
  e_uint32 (SSnapshotList sb) ++
  e_uint32 (SErrorCount sb) ++
  e_uint32 (SFirstErrorTime sb) ++
  e_uint32 (SFirstErrorIno sb) ++
  e_uint64 (SFirstErrorBlock sb) ++
  e_array e_uint8 (SFirstErrorFunc sb) ++
  e_uint32 (SFirstErrorLine sb) ++
  e_uint32 (SLastErrorTime sb) ++
  e_uint32 (SLastErrorIno sb) ++
  e_uint32 (SLastErrorLine sb) ++
  e_uint64 (SLastErrorBlock sb) ++
  e_array e_uint8 (SLastErrorFunc sb) ++
  e_array e_uint8 (SMountOpts sb) ++
  e_uint32 (SUsrQuotaInum sb) ++
  e_uint32 (SGrpQuotaInum sb) ++
  e_uint32 (SOverheadClusters sb) ++
  e_array e_uint32 (SBackupBgs sb) ++
  e_array e_uint8 (SEncryptAlgos sb) ++
  e_array e_uint8 (SEncryptPwSalt sb) ++
  e_uint32 (SLpfIno sb) ++
  e_uint32 (SPrjQuotaInum sb) ++
  e_uint32 (SChecksumSeed sb) ++
  e_uint8 (SWtimeHi sb) ++
  e_uint8 (SMtimeHi sb) ++
  e_uint8 (SMkfsTimeHi sb) ++
  e_uint8 (SLastcheckHi sb) ++
  e_uint8 (SFirstErrorTimeHi sb) ++
  e_uint8 (SLastErrorTimeHi sb) ++
  e_array e_uint8 (SPad sb) ++
  e_array e_uint32 (SReserved sb) ++
  e_int32 (SChecksum sb).

(** ** The documented layout

    The on-disk layout of fs/ext4/ext4.h that the struct's offset comments
    refer to, as an explicit table: every field read directly at its byte
    offset, little-endian. *)

Definition uint8_at (b : list byte) (off : nat) : Z :=
  LittleEndian.index (bytes_at b off 1) 0.
Definition uint16_at (b : list byte) (off : nat) : Z :=
  LittleEndian.Uint16 (bytes_at b off 2).
Definition uint32_at (b : list byte) (off : nat) : Z :=
  LittleEndian.Uint32 (bytes_at b off 4).
Definition uint64_at (b : list byte) (off : nat) : Z :=
  LittleEndian.Uint64 (bytes_at b off 8).
Definition int32_at (b : list byte) (off : nat) : Z :=
  int32_of_uint32 (uint32_at b off).

(** [n] elements of width [w], the first one at [off]. *)
Definition array_at {A} (elem_at : list byte -> nat -> A) (w : nat)
    (b : list byte) (off n : nat) : list A :=
  map (fun i => elem_at b (off + w * i)%nat) (seq 0 n).

(** How a decoder, an encoder and a table entry agree. *)

(** [reads w m at_]: on any buffer with [w] bytes left, [m] returns what
    [at_] finds at the read position and advances the position by [w]. *)
Definition reads {A} (w : nat) (m : Dec A) (at_ : list byte -> nat -> A) : Prop :=
  forall b k, (k + w <= length b)%nat ->
    m {| buf := b; offset := k |}
    = Some (at_ b k, {| buf := b; offset := (k + w)%nat |}).

(** [writes w e at_]: encoding the value found at a position gives back the
    [w] bytes at that position. *)
Definition writes {A} (w : nat) (e : A -> list byte)
    (at_ : list byte -> nat -> A) : Prop :=
  forall b k, (k + w <= length b)%nat -> e (at_ b k) = bytes_at b k w.

(** The table. *)
Definition Superblock_at_offsets (b : list byte) : Superblock := {|
  SInodesCount := uint32_at b 0x000;
  SBlocksCountLo := uint32_at b 0x004;
  SRBlocksCountLo := uint32_at b 0x008;
  SFreeBlocksCountLo := uint32_at b 0x00C;
  SFreeInodesCount := uint32_at b 0x010;
  SFirstDataBlock := uint32_at b 0x014;
  SLogBlockSize := uint32_at b 0x018;
  SLogClusterSize := uint32_at b 0x01C;
  SBlocksPerGroup := uint32_at b 0x020;
  SClustersPerGroup := uint32_at b 0x024;
  SInodesPerGroup := uint32_at b 0x028;
  SMtime := uint32_at b 0x02C;
  SWtime := uint32_at b 0x030;
  SMntCount := uint16_at b 0x034;
  SMaxMntCount := uint16_at b 0x036;
  SMagic := uint16_at b 0x038;
  SState := uint16_at b 0x03A;
  SErrors := uint16_at b 0x03C;
  SMinorRevLevel := uint16_at b 0x03E;
  SLastcheck := uint32_at b 0x040;
  SCheckinterval := uint32_at b 0x044;
  SCreatorOs := uint32_at b 0x048;
  SRevLevel := uint32_at b 0x04C;
  SDefResuid := uint16_at b 0x050;
  SDefResgid := uint16_at b 0x052;
  SFirstIno := uint32_at b 0x054;
  SInodeSize := uint16_at b 0x058;
  SBlockGroupNr := uint16_at b 0x05A;
  SFeatureCompat := uint32_at b 0x05C;
  SFeatureIncompat := uint32_at b 0x060;
  SFeatureRoCompat := uint32_at b 0x064;
  SUuid := array_at uint8_at 1 b 0x068 16;
  SVolumeName := array_at uint8_at 1 b 0x078 16;
  SLastMounted := array_at uint8_at 1 b 0x088 64;
  SAlgorithmUsageBitmap := uint32_at b 0x0C8;
  SPreallocBlocks := uint8_at b 0x0CC;
  SPreallocDirBlocks := uint8_at b 0x0CD;
  SReservedGdtBlocks := uint16_at b 0x0CE;
  SJournalUuid := array_at uint8_at 1 b 0x0D0 16;
  SJournalInum := uint32_at b 0x0E0;
  SJournalDev := uint32_at b 0x0E4;
  SLastOrphan := uint32_at b 0x0E8;
  SHashSeed := array_at uint32_at 4 b 0x0EC 4;
  SDefHashVersion := uint8_at b 0x0FC;
  SJnlBackupType := uint8_at b 0x0FD;
  SDescSize := uint16_at b 0x0FE;
  SDefaultMountOpts := uint32_at b 0x100;
  SFirstMetaBg := uint32_at b 0x104;
  SMkfsTime := uint32_at b 0x108;
  SJnlBlocks := array_at uint32_at 4 b 0x10C 17;
  SBlocksCountHi := uint32_at b 0x150;
  SRBlocksCountHi := uint32_at b 0x154;
  SFreeBlocksCountHi := uint32_at b 0x158;
  SMinExtraIsize := uint16_at b 0x15C;
  SWantExtraIsize := uint16_at b 0x15E;
  SFlags := uint32_at b 0x160;
  SRaidStride := uint16_at b 0x164;
  SMmpInterval := uint16_at b 0x166;
  SMmpBlock := uint64_at b 0x168;
  SRaidStripeWidth := uint32_at b 0x170;
  SLogGroupsPerFlex := uint8_at b 0x174;
  SChecksumType := uint8_at b 0x175;
  SEncryptionLevel := uint8_at b 0x176;
  SReservedPad := uint8_at b 0x177;
  SKbytesWritten := uint64_at b 0x178;
  SSnapshotInum := uint32_at b 0x180;
  SSnapshotId := uint32_at b 0x184;
  SSnapshotRBlocksCount := uint64_at b 0x188;
  SSnapshotList := uint32_at b 0x190;
  SErrorCount := uint32_at b 0x194;
  SFirstErrorTime := uint32_at b 0x198;
  SFirstErrorIno := uint32_at b 0x19C;
  SFirstErrorBlock := uint64_at b 0x1A0;
  SFirstErrorFunc := array_at uint8_at 1 b 0x1A8 32;
  SFirstErrorLine := uint32_at b 0x1C8;
  SLastErrorTime := uint32_at b 0x1CC;
  SLastErrorIno := uint32_at b 0x1D0;
  SLastErrorLine := uint32_at b 0x1D4;
  SLastErrorBlock := uint64_at b 0x1D8;
  SLastErrorFunc := array_at uint8_at 1 b 0x1E0 32;
  SMountOpts := array_at uint8_at 1 b 0x200 64;
  SUsrQuotaInum := uint32_at b 0x240;
  SGrpQuotaInum := uint32_at b 0x244;
  SOverheadClusters := uint32_at b 0x248;
  SBackupBgs := array_at uint32_at 4 b 0x24C 2;
  SEncryptAlgos := array_at uint8_at 1 b 0x254 4;
  SEncryptPwSalt := array_at uint8_at 1 b 0x258 16;
  SLpfIno := uint32_at b 0x268;
  SPrjQuotaInum := uint32_at b 0x26C;
  SChecksumSeed := uint32_at b 0x270;
  SWtimeHi := uint8_at b 0x274;
  SMtimeHi := uint8_at b 0x275;
  SMkfsTimeHi := uint8_at b 0x276;
  SLastcheckHi := uint8_at b 0x277;
  SFirstErrorTimeHi := uint8_at b 0x278;
  SLastErrorTimeHi := uint8_at b 0x279;
  SPad := array_at uint8_at 1 b 0x27A 2;
  SReserved := array_at uint32_at 4 b 0x27C 96;
  SChecksum := int32_at b 0x3FC
|}.

(** ** Byte sources and package io

    An [io.Reader] is described by the answers it gives to successive [Read]
    calls: some bytes, and possibly an error reported with them.  A call
    that asks for less than the next answer holds gets a prefix and leaves
    the rest; past its last answer the source reports [EOF].  The errors of
    a source are its own: no source returns this package's [ErrNotExt4]. *)

Inductive io_error :=
| EOF
| ErrUnexpectedEOF
| SourceError (msg : string).

Definition Reader : Type := list (list byte * option io_error).

(** [bytes.NewReader(b)]. *)
Definition NewReader (b : list byte) : Reader := [(b, None)].

(** [r.Read(p)] with [len(p) = n]. *)
Definition Read (r : Reader) (n : nat) : list byte * option io_error * Reader :=
  match r with
  | [] => ([], Some EOF, [])
  | (data, err) :: rest =>
      if (length data <=? n)%nat then (data, err, rest)
      else (firstn n data, None, (skipn n data, err) :: rest)
  end.

(** The loop of [io.ReadAtLeast] as [io.ReadFull] runs it ([min = len(buf)]):
    [for n < min && err == nil { nn, err = r.Read(buf[n:]); n += nn }],
    with [got] the filled part [buf[:n]].  [Read] is inlined so that the
    recursion is structural in the source; [ReadFull_loop_eq] below gives
    the loop in terms of [Read]. *)
Fixpoint ReadFull_loop (r : Reader) (size : nat) (got : list byte)
    : list byte * option io_error * Reader :=
  if (size <=? length got)%nat then (got, None, r)
  else
    match r with
    | [] => (got, Some EOF, [])
    | (data, err) :: rest =>
        let room := (size - length got)%nat in
        if (length data <=? room)%nat then
          match err with
          | None => ReadFull_loop rest size (got ++ data)
          | Some e => (got ++ data, Some e, rest)
          end
        else (got ++ firstn room data, None, (skipn room data, err) :: rest)
    end.

(** [io.ReadFull(r, buf)] with [len(buf) = size]: the bytes read, and
    [if n >= min { err = nil } else if n > 0 && err == EOF
     { err = ErrUnexpectedEOF }]. *)
Definition ReadFull (r : Reader) (size : nat)
    : list byte * option io_error * Reader :=
  let '(got, err, r') := ReadFull_loop r size [] in
  let n := length got in
  let err' :=
    if (size <=? n)%nat then None
    else match err with
         | Some EOF => if (0 <? n)%nat then Some ErrUnexpectedEOF else Some EOF
         | _ => err
         end in
  (got, err', r').

(** What a source delivers to a caller that reads until the first error:
    the bytes of its answers up to and including the first one that carries
    an error. *)
Fixpoint stream (r : Reader) : list byte :=
  match r with
  | [] => []
  | (data, None) :: rest => data ++ stream rest
  | (data, Some _) :: _ => data
  end.

(** The error that ends [stream]: the first one the source reports, [EOF]
    when it reports none. *)
Fixpoint stream_error (r : Reader) : io_error :=
  match r with
  | [] => EOF
  | (_, None) :: rest => stream_error rest
  | (_, Some e) :: _ => e
  end.

(** All the bytes a source holds, whatever errors it reports in between. *)
Definition contents (r : Reader) : list byte := concat (map fst r).

(** The error [io.ReadFull] gives a caller that asked for more than
    [stream] holds: the error that ends the stream, the end of input after
    some bytes being [ErrUnexpectedEOF]. *)
Definition short_read_error (r : Reader) : io_error :=
  match stream_error r, stream r with
  | EOF, _ :: _ => ErrUnexpectedEOF
  | e, _ => e
  end.


(** ** Errors, panics and go-logging *)

Inductive error :=
| IoError (e : io_error)        (* what the byte source or package io reports *)
| ErrNotExt4                    (* errors.New("not ext4") *)
| RuntimeError                  (* an index out of range *)
| Wrapped (cause : error).      (* go-logging's wrapper: the cause and a stack *)

(** How a call ends. *)
Inductive outcome (A : Type) :=
| Return (a : A)
| Panic (state : error).
Arguments Return {A} a.
Arguments Panic {A} state.



(** [log.Wrap]: an error that is already wrapped is returned as it is. *)
Definition log_Wrap (err : error) : error :=
  match err with
  | Wrapped _ => err
  | _ => Wrapped err
  end.

(** [log.Panic(err)]. *)
Definition log_Panic {A} (err : error) : outcome A := Panic (log_Wrap err).

(** [log.PanicIf(err)]. *)
Definition log_PanicIf (err : option error) : outcome unit :=
  match err with
  | None => Return tt
  | Some e => Panic (log_Wrap e)
  end.



(** ** encoding/binary.Read at a [*Superblock] *)

(** [binary.Read(r, binary.LittleEndian, sb)]: a buffer of [dataSize] bytes
    is filled by [io.ReadFull]; on an error [sb] is left as it was, otherwise
    the decoder fills it. *)
Definition binary_Read (r : Reader) (sb : Superblock)
    : outcome (Superblock * option error) * Reader :=
  let '(b, err, r') := ReadFull r dataSize in
  match err with
  | Some e => (Return (sb, Some (IoError e)), r')
  | None =>
      match d_Superblock {| buf := b; offset := 0 |} with
      | Some (sb', _) => (Return (sb', None), r')
      | None => (Panic RuntimeError, r')
      end
  end.

(** ** ParseSuperblock *)

(** The function body, before the deferred call runs. *)
Definition ParseSuperblock_body (r : Reader)
    : outcome (option Superblock * option error) * Reader :=
  let sb := new_Superblock in
  match binary_Read r sb with
  | (Panic state, r') => (Panic state, r')
  | (Return (sb, err), r') =>
      match log_PanicIf err with
      | Panic state => (Panic state, r')
      | Return _ =>
          if negb (SMagic sb =? Ext4Magic)
          then (log_Panic ErrNotExt4, r')
          else (Return (Some sb, None), r')
      end
  end.

(** The deferred function: a panic is recovered, wrapped and raised again;
    the named results are not touched. *)
Definition ParseSuperblock_deferred {A} (o : outcome A) : outcome A :=
  match o with
  | Panic state => log_Panic (log_Wrap state)
  | Return a => Return a
  end.

(** [ParseSuperblock(r)]: how the call ends, and the source as it leaves it. *)
Definition ParseSuperblock (r : Reader)
    : outcome (option Superblock * option error) * Reader :=
  let '(o, r') := ParseSuperblock_body r in
  (ParseSuperblock_deferred o, r').

(** ** Accessors of [Superblock] *)

Definition HasExtended (sb : Superblock) : bool :=
  SRevLevel sb >=? SbRevlevelDynamicRev.

(** *** float64 and math.Pow, as far as [BlockSize] uses them

    [BlockSize] converts the exponent to float64, adds 10, raises 2 to it
    and converts back.  The values met on the way are integers that float64
    holds exactly (a uint32, a uint32 plus 10, a power of two up to
    [2^1023]) or the overflow value [+Inf]. *)

Inductive float64 :=
| Exact (z : Z)
| PosInf.

Definition float64_of_uint32 (x : Z) : float64 := Exact x.

(** The value as a number, [+Inf] counted as 0: only its sign is used. *)
Definition f_nonneg (f : float64) : Z :=
  match f with
  | Exact z => z
  | PosInf => 0
  end.

Definition float64_add (a b : float64) : float64 :=
  match a, b with
  | Exact x, Exact y => Exact (x + y)
  | _, _ => PosInf
  end.

(** [math.Pow(2, y)] at a non-negative integer [y]: exact up to the largest
    finite power of two, [+Inf] above it. *)
Definition math_Pow2 (y : float64) : float64 :=
  match y with
  | Exact n => if n <=? 1023 then Exact (2 ^ n) else PosInf
  | PosInf => PosInf
  end.

Section Float64ToUint32.

(** The bits the platform leaves when a float64 that uint32 cannot represent
    is converted: the Go specification makes them implementation-dependent. *)
Variable out_of_range : float64 -> Z.

(** The conversion [uint32(f)]. *)
Definition uint32_of_float64 (f : float64) : Z :=
  match f with
  | Exact z => if z <? 2 ^ 32 then z else out_of_range f mod 2 ^ 32
  | PosInf => out_of_range f mod 2 ^ 32
  end.

Definition BlockSize (sb : Superblock) : Z :=
  uint32_of_float64
    (math_Pow2 (float64_add (Exact 10) (float64_of_uint32 (SLogBlockSize sb)))).

End Float64ToUint32.

Definition HasCompatibleFeature (sb : Superblock) (mask : Z) : bool :=
  Z.land (SFeatureCompat sb) mask >? 0.

Definition HasReadonlyCompatibleFeature (sb : Superblock) (mask : Z) : bool :=
  Z.land (SFeatureRoCompat sb) mask >? 0.

Definition HasIncompatibleFeature (sb : Superblock) (mask : Z) : bool :=
  Z.land (SFeatureIncompat sb) mask >? 0.

(** ** The feature-flag registry *)

Definition SbFeatureCompatDirPrealloc : Z := 0x0001.
Definition SbFeatureCompatImagicInodes : Z := 0x0002.
Definition SbFeatureCompatHasJournal : Z := 0x0004.
Definition SbFeatureCompatExtAttr : Z := 0x0008.
Definition SbFeatureCompatResizeInode : Z := 0x0010.
Definition SbFeatureCompatDirIndex : Z := 0x0020.

Definition SbFeatureCompatNames : list string :=
  [ "DirIndex"; "DirPrealloc"; "ExtAttr"; "HasJournal"; "ImagicInodes";
    "ResizeInode" ]%string.

Definition SbFeatureCompatLookup : gmap string Z :=
  list_to_map
    [ ("DirPrealloc", SbFeatureCompatDirPrealloc);
      ("ImagicInodes", SbFeatureCompatImagicInodes);
      ("HasJournal", SbFeatureCompatHasJournal);
      ("ExtAttr", SbFeatureCompatExtAttr);
      ("ResizeInode", SbFeatureCompatResizeInode);
      ("DirIndex", SbFeatureCompatDirIndex) ]%string.

Definition SbFeatureRoCompatSparseSuper : Z := 0x0001.
Definition SbFeatureRoCompatLargeFile : Z := 0x0002.
Definition SbFeatureRoCompatBtreeDir : Z := 0x0004.
Definition SbFeatureRoCompatHugeFile : Z := 0x0008.
Definition SbFeatureRoCompatGdtCsum : Z := 0x0010.
Definition SbFeatureRoCompatDirNlink : Z := 0x0020.
Definition SbFeatureRoCompatExtraIsize : Z := 0x0040.

Definition SbFeatureRoCompatNames : list string :=
  [ "BtreeDir"; "DirNlink"; "ExtraIsize"; "GdtCsum"; "HugeFile"; "LargeFile";
    "SparseSuper" ]%string.

Definition SbFeatureRoCompatLookup : gmap string Z :=
  list_to_map
    [ ("SparseSuper", SbFeatureRoCompatSparseSuper);
      ("LargeFile", SbFeatureRoCompatLargeFile);
      ("BtreeDir", SbFeatureRoCompatBtreeDir);
      ("HugeFile", SbFeatureRoCompatHugeFile);
      ("GdtCsum", SbFeatureRoCompatGdtCsum);
      ("DirNlink", SbFeatureRoCompatDirNlink);
      ("ExtraIsize", SbFeatureRoCompatExtraIsize) ]%string.

Definition SbFeatureIncompatCompression : Z := 0x0001.
Definition SbFeatureIncompatFiletype : Z := 0x0002.
Definition SbFeatureIncompatRecover : Z := 0x0004.
Definition SbFeatureIncompatJournalDev : Z := 0x0008.
Definition SbFeatureIncompatMetaBg : Z := 0x0010.
Definition SbFeatureIncompatExtents : Z := 0x0040.
Definition SbFeatureIncompat64bit : Z := 0x0080.
Definition SbFeatureIncompatMmp : Z := 0x0100.
Definition SbFeatureIncompatFlexBg : Z := 0x0200.

Definition SbFeatureIncompatNames : list string :=
  [ "64bit"; "Compression"; "Extents"; "Filetype"; "FlexBg"; "JournalDev";
    "MetaBg"; "Mmp"; "Recover" ]%string.

Definition SbFeatureIncompatLookup : gmap string Z :=
  list_to_map
    [ ("Compression", SbFeatureIncompatCompression);
      ("Filetype", SbFeatureIncompatFiletype);
      ("Recover", SbFeatureIncompatRecover);
      ("JournalDev", SbFeatureIncompatJournalDev);
      ("MetaBg", SbFeatureIncompatMetaBg);
      ("Extents", SbFeatureIncompatExtents);
      ("64bit", SbFeatureIncompat64bit);
      ("Mmp", SbFeatureIncompatMmp);
      ("FlexBg", SbFeatureIncompatFlexBg) ]%string.

(** [m[name]] of a Go map: the zero value for a key that is absent. *)
Definition map_index (m : gmap string Z) (name : string) : Z :=
  default 0 (m !! name).

(** ** Dump: the three feature listings

    One line per name of the category's listing, in its order: the name, the
    bit the lookup map gives for it, and whether the record has it.  (The
    scalar fields printed before them and the formatting are left out.) *)

Definition Dump_features (names : list string) (lookup : gmap string Z)
    (has : Z -> bool) : list (string * Z * bool) :=
  map (fun name => let bit := map_index lookup name in (name, bit, has bit))
      names.

Definition Dump_Compatible (sb : Superblock) : list (string * Z * bool) :=
  Dump_features SbFeatureCompatNames SbFeatureCompatLookup
                (HasCompatibleFeature sb).

Definition Dump_ReadonlyCompatible (sb : Superblock) : list (string * Z * bool) :=
  Dump_features SbFeatureRoCompatNames SbFeatureRoCompatLookup
                (HasReadonlyCompatibleFeature sb).

Definition Dump_Incompatible (sb : Superblock) : list (string * Z * bool) :=
  Dump_features SbFeatureIncompatNames SbFeatureIncompatLookup
                (HasIncompatibleFeature sb).

(** ** Reference data the properties are stated against *)

(** Go's order on strings, byte by byte. *)
Definition string_lt (a b : string) : Prop := String.ltb a b = true.

(** [sort.StringsAreSorted]. *)
Fixpoint StringsAreSorted (x : list string) : bool :=
  match x with
  | a :: (b :: _) as rest => negb (String.ltb b a) && StringsAreSorted rest
  | _ => true
  end.

(** The feature bits of fs/ext4/ext4.h (its EXT4_FEATURE_COMPAT,
    EXT4_FEATURE_RO_COMPAT and EXT4_FEATURE_INCOMPAT constants), under the
    names this package gives them. *)
Definition ext4_h_compat : list (string * Z) :=
  [ ("DirPrealloc", 0x0001); ("ImagicInodes", 0x0002); ("HasJournal", 0x0004);
    ("ExtAttr", 0x0008); ("ResizeInode", 0x0010); ("DirIndex", 0x0020)
  ]%string.

Definition ext4_h_ro_compat : list (string * Z) :=
  [ ("SparseSuper", 0x0001); ("LargeFile", 0x0002); ("BtreeDir", 0x0004);
    ("HugeFile", 0x0008); ("GdtCsum", 0x0010); ("DirNlink", 0x0020);
    ("ExtraIsize", 0x0040) ]%string.

Definition ext4_h_incompat : list (string * Z) :=
  [ ("Compression", 0x0001); ("Filetype", 0x0002); ("Recover", 0x0004);
    ("JournalDev", 0x0008); ("MetaBg", 0x0010); ("Extents", 0x0040);
    ("64bit", 0x0080); ("Mmp", 0x0100); ("FlexBg", 0x0200) ]%string.

(** A mask with exactly one bit set. *)
Definition single_bit (m : Z) : Prop := exists k, 0 <= k < 32 /\ m = 2 ^ k.

(** Every name of the listing [names] is bound by [lookup] to the mask the
    reference table [canon] gives it. *)
Definition names_bound_as (names : list string) (lookup : gmap string Z)
    (canon : list (string * Z)) : Prop :=
  Forall (fun name => exists mask,
            In (name, mask) canon /\ lookup !! name = Some mask) names.

(** A category of the registry is in order: its masks are single bits, no two
    names share one, and the listing holds the keys of the map, each once. *)
Definition registry_ok (names : list string) (lookup : gmap string Z) : Prop :=
  (forall name m, lookup !! name = Some m -> single_bit m /\ m <> 0)
  /\ (forall n1 n2 m, lookup !! n1 = Some m -> lookup !! n2 = Some m -> n1 = n2)
  /\ (forall name, In name names <-> is_Some (lookup !! name))
  /\ NoDup names.

(** Every line of a feature listing carries the mask bound to its name, a
    single non-zero bit that no line of another name carries. *)
Definition dump_ok (lookup : gmap string Z)
    (lines : list (string * Z * bool)) : Prop :=
  forall name bit has,
    In (name, bit, has) lines ->
    lookup !! name = Some bit
    /\ single_bit bit
    /\ bit <> 0
    /\ (forall name' has', In (name', bit, has') lines -> name' = name).

(** *** Crafted superblock images

    A 1024-byte image that is zero except for the fields given. *)

(** [copy(b[off:], bs)]. *)
Definition patch (off : nat) (bs : list byte) (b : list byte) : list byte :=
  firstn off b ++ bs ++ skipn (off + length bs) b.

Definition image (magic log_block_size rev_level feature_compat : Z) : list byte :=
  patch 0x18 (LittleEndian.PutUint32 log_block_size)
    (patch 0x38 (LittleEndian.PutUint16 magic)
      (patch 0x4C (LittleEndian.PutUint32 rev_level)
        (patch 0x5C (LittleEndian.PutUint32 feature_compat)
          (repeat Byte.x00 1024)))).


(** ** What a feature listing reports *)

(** The masks of the lines a listing reports as set, OR-ed together. *)
Definition reported (lines : list (string * Z * bool)) : Z :=
  fold_right (fun (line : string * Z * bool) acc =>
                if snd line then Z.lor (snd (fst line)) acc else acc)
             0 lines.

(** The masks a listing asks about, OR-ed together. *)
Definition asked (lines : list (string * Z * bool)) : Z :=
  fold_right (fun (line : string * Z * bool) acc => Z.lor (snd (fst line)) acc)
             0 lines.

(** ** Values of the declared types

    The fields of a [Superblock] are [Z] and lists here; a record is
    well typed when every field holds a value of the Go type the struct
    declares for it, an array its declared number of elements. *)

(** [is_int w z]: [z] is a value of Go's signed type of [w] bits. *)
Definition is_int (w : Z) (z : Z) : Prop := - 2 ^ (w - 1) <= z < 2 ^ (w - 1).

(** [is_array n P xs]: [xs] is an array of [n] elements that satisfy [P]. *)
Definition is_array {A} (n : nat) (P : A -> Prop) (xs : list A) : Prop :=
  length xs = n /\ Forall P xs.

Definition well_typed (sb : Superblock) : Prop :=
  is_uint 32 (SInodesCount sb) /\
  is_uint 32 (SBlocksCountLo sb) /\
  is_uint 32 (SRBlocksCountLo sb) /\
  is_uint 32 (SFreeBlocksCountLo sb) /\
  is_uint 32 (SFreeInodesCount sb) /\
  is_uint 32 (SFirstDataBlock sb) /\
  is_uint 32 (SLogBlockSize sb) /\
  is_uint 32 (SLogClusterSize sb) /\
  is_uint 32 (SBlocksPerGroup sb) /\
  is_uint 32 (SClustersPerGroup sb) /\
  is_uint 32 (SInodesPerGroup sb) /\
  is_uint 32 (SMtime sb) /\
  is_uint 32 (SWtime sb) /\
  is_uint 16 (SMntCount sb) /\
  is_uint 16 (SMaxMntCount sb) /\
  is_uint 16 (SMagic sb) /\
  is_uint 16 (SState sb) /\
  is_uint 16 (SErrors sb) /\
  is_uint 16 (SMinorRevLevel sb) /\
  is_uint 32 (SLastcheck sb) /\
  is_uint 32 (SCheckinterval sb) /\
  is_uint 32 (SCreatorOs sb) /\
  is_uint 32 (SRevLevel sb) /\
  is_uint 16 (SDefResuid sb) /\
  is_uint 16 (SDefResgid sb) /\
  is_uint 32 (SFirstIno sb) /\
  is_uint 16 (SInodeSize sb) /\
  is_uint 16 (SBlockGroupNr sb) /\
  is_uint 32 (SFeatureCompat sb) /\
  is_uint 32 (SFeatureIncompat sb) /\
  is_uint 32 (SFeatureRoCompat sb) /\
  is_array 16 (is_uint 8) (SUuid sb) /\
  is_array 16 (is_uint 8) (SVolumeName sb) /\
  is_array 64 (is_uint 8) (SLastMounted sb) /\
  is_uint 32 (SAlgorithmUsageBitmap sb) /\
  is_uint 8 (SPreallocBlocks sb) /\
  is_uint 8 (SPreallocDirBlocks sb) /\
  is_uint 16 (SReservedGdtBlocks sb) /\
  is_array 16 (is_uint 8) (SJournalUuid sb) /\
  is_uint 32 (SJournalInum sb) /\
  is_uint 32 (SJournalDev sb) /\
  is_uint 32 (SLastOrphan sb) /\
  is_array 4 (is_uint 32) (SHashSeed sb) /\
  is_uint 8 (SDefHashVersion sb) /\
  is_uint 8 (SJnlBackupType sb) /\
  is_uint 16 (SDescSize sb) /\
  is_uint 32 (SDefaultMountOpts sb) /\
  is_uint 32 (SFirstMetaBg sb) /\
  is_uint 32 (SMkfsTime sb) /\
  is_array 17 (is_uint 32) (SJnlBlocks sb) /\
  is_uint 32 (SBlocksCountHi sb) /\
  is_uint 32 (SRBlocksCountHi sb) /\
  is_uint 32 (SFreeBlocksCountHi sb) /\
  is_uint 16 (SMinExtraIsize sb) /\
  is_uint 16 (SWantExtraIsize sb) /\
  is_uint 32 (SFlags sb) /\
  is_uint 16 (SRaidStride sb) /\
  is_uint 16 (SMmpInterval sb) /\
  is_uint 64 (SMmpBlock sb) /\
  is_uint 32 (SRaidStripeWidth sb) /\
  is_uint 8 (SLogGroupsPerFlex sb) /\
  is_uint 8 (SChecksumType sb) /\
  is_uint 8 (SEncryptionLevel sb) /\
  is_uint 8 (SReservedPad sb) /\
  is_uint 64 (SKbytesWritten sb) /\
  is_uint 32 (SSnapshotInum sb) /\
  is_uint 32 (SSnapshotId sb) /\
  is_uint 64 (SSnapshotRBlocksCount sb) /\
  is_uint 32 (SSnapshotList sb) /\
  is_uint 32 (SErrorCount sb) /\
  is_uint 32 (SFirstErrorTime sb) /\
  is_uint 32 (SFirstErrorIno sb) /\
  is_uint 64 (SFirstErrorBlock sb) /\
  is_array 32 (is_uint 8) (SFirstErrorFunc sb) /\
  is_uint 32 (SFirstErrorLine sb) /\
  is_uint 32 (SLastErrorTime sb) /\
  is_uint 32 (SLastErrorIno sb) /\
  is_uint 32 (SLastErrorLine sb) /\
  is_uint 64 (SLastErrorBlock sb) /\
  is_array 32 (is_uint 8) (SLastErrorFunc sb) /\
  is_array 64 (is_uint 8) (SMountOpts sb) /\
  is_uint 32 (SUsrQuotaInum sb) /\
  is_uint 32 (SGrpQuotaInum sb) /\
  is_uint 32 (SOverheadClusters sb) /\
  is_array 2 (is_uint 32) (SBackupBgs sb) /\
  is_array 4 (is_uint 8) (SEncryptAlgos sb) /\
  is_array 16 (is_uint 8) (SEncryptPwSalt sb) /\
  is_uint 32 (SLpfIno sb) /\
  is_uint 32 (SPrjQuotaInum sb) /\
  is_uint 32 (SChecksumSeed sb) /\
  is_uint 8 (SWtimeHi sb) /\
  is_uint 8 (SMtimeHi sb) /\
  is_uint 8 (SMkfsTimeHi sb) /\
  is_uint 8 (SLastcheckHi sb) /\
  is_uint 8 (SFirstErrorTimeHi sb) /\
  is_uint 8 (SLastErrorTimeHi sb) /\
  is_array 2 (is_uint 8) (SPad sb) /\
  is_array 96 (is_uint 32) (SReserved sb) /\
  is_int 32 (SChecksum sb).

(** [types w at_ P]: what [at_] reads from [w] bytes of a buffer satisfies
    [P]. *)
Definition types {A} (w : nat) (at_ : list byte -> nat -> A) (P : A -> Prop)
    : Prop :=
  forall b k, (k + w <= length b)%nat -> P (at_ b k).

(** [codec w d e P]: where the bytes [e v] of a value that satisfies [P] lie
    at the read position, [d] reads [v] and advances by [w], to the bytes
    that follow. *)
Definition codec {A} (w : nat) (d : Dec A) (e : A -> list byte)
    (P : A -> Prop) : Prop :=
  forall b k v rest,
    (k <= length b)%nat -> P v -> skipn k b = e v ++ rest ->
    d {| buf := b; offset := k |}
    = Some (v, {| buf := b; offset := (k + w)%nat |})
    /\ skipn (k + w) b = rest
    /\ (k + w <= length b)%nat.

(** ** Package time, as far as the time accessors use it *)

(** A [time.Time], by what its methods [Unix] and [Nanosecond] return: the
    seconds since the epoch and the nanoseconds within the second. *)
Record Time := { Unix : Z; Nanosecond : Z }.

(** [time.Unix(sec, nsec)]: nanoseconds outside [0, 999999999] are carried
    into the seconds. *)
Definition time_Unix (sec nsec : Z) : Time :=
  if (nsec <? 0) || (nsec >=? 1000000000) then
    let n := Z.quot nsec 1000000000 in
    let sec := sec + n in
    let nsec := nsec - n * 1000000000 in
    if nsec <? 0
    then {| Unix := sec - 1; Nanosecond := nsec + 1000000000 |}
    else {| Unix := sec; Nanosecond := nsec |}
  else {| Unix := sec; Nanosecond := nsec |}.

(** The conversion [int64(x)] of a [uint32]: the same number. *)
Definition int64_of_uint32 (x : Z) : Z := x.

Definition MountTime (sb : Superblock) : Time :=
  time_Unix (int64_of_uint32 (SMtime sb)) 0.

Definition WriteTime (sb : Superblock) : Time :=
  time_Unix (int64_of_uint32 (SWtime sb)) 0.

Definition LastCheckTime (sb : Superblock) : Time :=
  time_Unix (int64_of_uint32 (SLastcheck sb)) 0.

(** * Properties *)

(** ** Little-endian integers *)

Module LittleEndianFacts.
Import LittleEndian.

Lemma Uint16_le_combine b0 b1 : Uint16 [b0; b1] = le_combine [b0; b1].
Proof.
  unfold Uint16, index. cbv [nth le_combine].
  now rewrite Z.shiftl_0_l, Z.lor_0_r.
Qed.

Lemma Uint32_le_combine b0 b1 b2 b3 :
  Uint32 [b0; b1; b2; b3] = le_combine [b0; b1; b2; b3].
Proof.
  unfold Uint32, index. cbv [nth le_combine].
  rewrite Z.shiftl_0_l, Z.lor_0_r.
  rewrite !Z.shiftl_lor, !Z.shiftl_shiftl by lia.
  cbn [Z.add Pos.add Pos.succ]. now rewrite !Z.lor_assoc.
Qed.

Lemma Uint64_le_combine b0 b1 b2 b3 b4 b5 b6 b7 :
  Uint64 [b0; b1; b2; b3; b4; b5; b6; b7]
  = le_combine [b0; b1; b2; b3; b4; b5; b6; b7].
Proof.
  unfold Uint64, index. cbv [nth le_combine].
  rewrite Z.shiftl_0_l, Z.lor_0_r.
  rewrite !Z.shiftl_lor, !Z.shiftl_shiftl by lia.
  cbn [Z.add Pos.add Pos.succ]. now rewrite !Z.lor_assoc.
Qed.

(** A list of known length, spelled out. *)
Ltac explode b :=
  repeat (let x := fresh "x" in destruct b as [|x b]; [discriminate|]);
  destruct b; [|discriminate].

Lemma index_byte b : length b = 1%nat -> [byte.of_Z (index b 0)] = b.
Proof.
  intros H. explode b. unfold index. cbn [nth].
  now rewrite byte.of_Z_unsigned.
Qed.

Lemma PutUint16_Uint16 b : length b = 2%nat -> PutUint16 (Uint16 b) = b.
Proof.
  intros H. explode b. rewrite Uint16_le_combine.
  exact (split_le_combine [x; x0]).
Qed.

Lemma PutUint32_Uint32 b : length b = 4%nat -> PutUint32 (Uint32 b) = b.
Proof.
  intros H. explode b. rewrite Uint32_le_combine.
  exact (split_le_combine [x; x0; x1; x2]).
Qed.

Lemma PutUint64_Uint64 b : length b = 8%nat -> PutUint64 (Uint64 b) = b.
Proof.
  intros H. explode b. rewrite Uint64_le_combine.
  exact (split_le_combine [x; x0; x1; x2; x3; x4; x5; x6]).
Qed.

Lemma index_range b i : 0 <= index b i < 2 ^ 8.
Proof. apply byte.unsigned_range. Qed.

Lemma Uint16_range b : length b = 2%nat -> 0 <= Uint16 b < 2 ^ 16.
Proof.
  intros H. explode b. rewrite Uint16_le_combine.
  exact (le_combine_bound [x; x0]).
Qed.

Lemma Uint32_range b : length b = 4%nat -> 0 <= Uint32 b < 2 ^ 32.
Proof.
  intros H. explode b. rewrite Uint32_le_combine.
  exact (le_combine_bound [x; x0; x1; x2]).
Qed.

Lemma Uint64_range b : length b = 8%nat -> 0 <= Uint64 b < 2 ^ 64.
Proof.
  intros H. explode b. rewrite Uint64_le_combine.
  exact (le_combine_bound [x; x0; x1; x2; x3; x4; x5; x6]).
Qed.

Lemma Uint16_PutUint16 v : Uint16 (PutUint16 v) = v mod 2 ^ 16.
Proof.
  unfold PutUint16. rewrite Uint16_le_combine.
  exact (le_combine_split 2 v).
Qed.

Lemma Uint32_PutUint32 v : Uint32 (PutUint32 v) = v mod 2 ^ 32.
Proof.
  unfold PutUint32. rewrite Uint32_le_combine.
  exact (le_combine_split 4 v).
Qed.

End LittleEndianFacts.

Lemma uint32_of_int32_of_uint32 x :
  0 <= x < 2 ^ 32 -> uint32_of_int32 (int32_of_uint32 x) = x.
Proof.
  intros H. unfold uint32_of_int32, int32_of_uint32.
  destruct (Z.ltb_spec x (2 ^ 31)).
  - apply Z.mod_small. lia.
  - replace (x - 2 ^ 32) with (x + (-1) * 2 ^ 32) by lia.
    rewrite Z.mod_add by lia. apply Z.mod_small. lia.
Qed.

Lemma int32_of_uint32_range x :
  0 <= x < 2 ^ 32 -> - 2 ^ 31 <= int32_of_uint32 x < 2 ^ 31.
Proof.
  intros H. unfold int32_of_uint32. destruct (Z.ltb_spec x (2 ^ 31)); lia.
Qed.

(** ** The decoder reads every field at its offset *)

Lemma length_bytes_at b k n :
  (k + n <= length b)%nat -> length (bytes_at b k n) = n.
Proof.
  intros H. unfold bytes_at. rewrite length_firstn, length_skipn. lia.
Qed.

Lemma bytes_at_skipn b k n :
  bytes_at b k n ++ skipn (k + n) b = skipn k b.
Proof.
  unfold bytes_at. rewrite Nat.add_comm, <- skipn_skipn.
  apply firstn_skipn.
Qed.

Lemma reads_next n : reads n (d_next n) (fun b k => bytes_at b k n).
Proof.
  intros b k H. unfold d_next. cbn [buf offset].
  apply Nat.leb_le in H. now rewrite H.
Qed.

Lemma reads_map {A B} w (m : Dec A) at_ (g : A -> B) :
  reads w m at_ -> reads w (x <- m ;; ret (g x)) (fun b k => g (at_ b k)).
Proof. intros Hm b k H. unfold bind, ret. now rewrite (Hm b k H). Qed.

Lemma reads_uint8 : reads 1 d_uint8 uint8_at.
Proof. exact (reads_map 1 _ _ (fun b => LittleEndian.index b 0) (reads_next 1)). Qed.

Lemma reads_uint16 : reads 2 d_uint16 uint16_at.
Proof. exact (reads_map 2 _ _ LittleEndian.Uint16 (reads_next 2)). Qed.

Lemma reads_uint32 : reads 4 d_uint32 uint32_at.
Proof. exact (reads_map 4 _ _ LittleEndian.Uint32 (reads_next 4)). Qed.

Lemma reads_uint64 : reads 8 d_uint64 uint64_at.
Proof. exact (reads_map 8 _ _ LittleEndian.Uint64 (reads_next 8)). Qed.

Lemma reads_int32 : reads 4 d_int32 int32_at.
Proof. exact (reads_map 4 _ _ int32_of_uint32 reads_uint32). Qed.

Lemma array_at_S {A} (elem_at : list byte -> nat -> A) w b k n :
  array_at elem_at w b k (S n)
  = elem_at b k :: array_at elem_at w b (k + w) n.
Proof.
  unfold array_at. cbn [seq map]. f_equal.
  - f_equal. lia.
  - rewrite <- seq_shift, map_map. apply map_ext. intros i. f_equal. lia.
Qed.

Lemma reads_array {A} w (m : Dec A) at_ n :
  reads w m at_ ->
  reads (n * w) (d_array n m) (fun b k => array_at at_ w b k n).
Proof.
  intros Hm. induction n as [|n IH]; intros b k H.
  - cbn. unfold ret. do 2 f_equal. f_equal. lia.
  - cbn [d_array]. unfold bind at 1. rewrite (Hm b k) by (cbn in H; lia).
    unfold bind at 1. rewrite (IH b (k + w)%nat) by (cbn in H; lia).
    unfold ret. rewrite array_at_S. do 2 f_equal. f_equal. cbn. lia.
Qed.

Lemma bind_reads {A B} w (m : Dec A) at_ (f : A -> Dec B) b k :
  reads w m at_ -> (k + w <=? length b)%nat = true ->
  bind m f {| buf := b; offset := k |}
  = f (at_ b k) {| buf := b; offset := (k + w)%nat |}.
Proof.
  intros Hm H. apply Nat.leb_le in H. unfold bind. now rewrite (Hm b k H).
Qed.

(** One field of the struct: the head read is replaced by the table entry. *)
Ltac read_field Hlen :=
  let step H :=
    rewrite (bind_reads _ _ _ _ _ _ H) by (rewrite Hlen; reflexivity) in
  lazymatch goal with
  | |- bind d_uint8 _ _ = _ => step reads_uint8
  | |- bind d_uint16 _ _ = _ => step reads_uint16
  | |- bind d_uint32 _ _ = _ => step reads_uint32
  | |- bind d_uint64 _ _ = _ => step reads_uint64
  | |- bind d_int32 _ _ = _ => step reads_int32
  | |- bind (d_array ?n d_uint8) _ _ = _ =>
      step (reads_array _ _ _ n reads_uint8)
  | |- bind (d_array ?n d_uint32) _ _ = _ =>
      step (reads_array _ _ _ n reads_uint32)
  end;
  cbn beta; cbn [Nat.add Nat.mul].

Lemma d_Superblock_at_offsets b :
  length b = 1024%nat ->
  d_Superblock {| buf := b; offset := 0 |}
  = Some (Superblock_at_offsets b, {| buf := b; offset := 1024 |}).
Proof.
  intros Hlen. unfold d_Superblock.
  repeat read_field Hlen.
  reflexivity.
Qed.

(** ** io.ReadFull *)

(** The loop of [ReadFull_loop] is the loop of the Go function: while the
    buffer is not full, one [Read] into the free part of it, and an error stops
    the loop. *)
Lemma ReadFull_loop_eq r size got :
  ReadFull_loop r size got
  = if (size <=? length got)%nat then (got, None, r)
    else
      let '(data, err, r') := Read r (size - length got) in
      match err with
      | None => ReadFull_loop r' size (got ++ data)
      | Some e => (got ++ data, Some e, r')
      end.
Proof.
  destruct r as [|[data err] rest]; cbn [ReadFull_loop Read];
    destruct (Nat.leb_spec size (length got)) as [Hfull|Hroom]; try reflexivity.
  - now rewrite app_nil_r.
  - destruct (Nat.leb_spec (length data) (size - length got)) as [Hfit|Hbig].
    + reflexivity.
    + cbn [ReadFull_loop].
      assert (Hlen : (size <=? length (got ++ firstn (size - length got) data))%nat = true).
      { apply Nat.leb_le. rewrite length_app, length_firstn. lia. }
      now rewrite Hlen.
Qed.

Lemma ReadFull_loop_enough r : forall size got,
  (length got <= size)%nat ->
  (size <= length (got ++ stream r))%nat ->
  fst (fst (ReadFull_loop r size got)) = firstn size (got ++ stream r).
Proof.
  induction r as [|[data err] rest IH]; intros size got Hgot Hsize;
    cbn [ReadFull_loop stream] in *.
  - rewrite app_nil_r in *.
    assert (length got = size) as <- by lia.
    rewrite Nat.leb_refl. cbn. now rewrite firstn_all.
  - destruct (Nat.leb_spec size (length got)) as [Hfull|Hroom].
    + cbn. assert (length got = size) as <- by lia.
      now rewrite firstn_app, Nat.sub_diag, firstn_all, firstn_O, app_nil_r.
    + destruct (Nat.leb_spec (length data) (size - length got)) as [Hfit|Hbig].
      * destruct err as [e|].
        -- cbn. rewrite length_app in Hsize.
           rewrite firstn_all2 by (rewrite length_app; lia). reflexivity.
        -- rewrite IH.
           ++ now rewrite <- app_assoc.
           ++ rewrite length_app. lia.
           ++ now rewrite <- app_assoc.
      * cbn. rewrite firstn_app, (firstn_all2 got) by lia.
        f_equal. destruct err; [reflexivity|].
        rewrite firstn_app.
        replace (size - length got - length data)%nat with 0%nat by lia.
        now rewrite firstn_O, app_nil_r.
Qed.

Lemma ReadFull_loop_short r : forall size got,
  (length (got ++ stream r) < size)%nat ->
  exists r', ReadFull_loop r size got
             = (got ++ stream r, Some (stream_error r), r').
Proof.
  induction r as [|[data err] rest IH]; intros size got Hshort;
    cbn [ReadFull_loop stream stream_error] in *.
  - rewrite app_nil_r in *.
    destruct (Nat.leb_spec size (length got)); [lia|]. now exists [].
  - assert (Hgot : (length got < size)%nat) by (rewrite length_app in Hshort; lia).
    destruct (Nat.leb_spec size (length got)); [lia|].
    destruct err as [e|]; rewrite !length_app in Hshort.
    + destruct (Nat.leb_spec (length data) (size - length got)); [|lia].
      now exists rest.
    + destruct (Nat.leb_spec (length data) (size - length got)); [|lia].
      destruct (IH size (got ++ data)) as [r' Hr'].
      { rewrite !length_app. lia. }
      exists r'. now rewrite Hr', <- app_assoc.
Qed.

(** Whatever happens, the bytes handed out are taken from the front of the
    source and the others stay in it. *)
Lemma ReadFull_loop_contents r : forall size got,
  got ++ contents r
  = fst (fst (ReadFull_loop r size got)) ++ contents (snd (ReadFull_loop r size got)).
Proof.
  unfold contents.
  induction r as [|[data err] rest IH]; intros size got; cbn [ReadFull_loop].
  - destruct (size <=? length got)%nat; reflexivity.
  - destruct (size <=? length got)%nat; [reflexivity|].
    destruct (length data <=? size - length got)%nat.
    + destruct err as [e|].
      * cbn. now rewrite app_assoc.
      * rewrite <- IH. cbn. now rewrite app_assoc.
    + cbn. rewrite <- app_assoc. f_equal.
      now rewrite app_assoc, firstn_skipn.
Qed.

Lemma ReadFull_enough r size :
  (size <= length (stream r))%nat ->
  exists r', ReadFull r size = (firstn size (stream r), None, r')
             /\ contents r = firstn size (stream r) ++ contents r'.
Proof.
  intros Hsize. unfold ReadFull.
  pose proof (ReadFull_loop_enough r size [] (Nat.le_0_l _) Hsize) as Hb.
  pose proof (ReadFull_loop_contents r size []) as Hc.
  destruct (ReadFull_loop r size []) as [[got err] r']. cbn in Hb, Hc.
  subst got. exists r'. split; [|exact Hc].
  rewrite length_firstn, Nat.min_l by assumption.
  now rewrite Nat.leb_refl.
Qed.

Lemma ReadFull_short r size :
  (length (stream r) < size)%nat ->
  exists r', ReadFull r size = (stream r, Some (short_read_error r), r').
Proof.
  intros Hshort. unfold ReadFull.
  destruct (ReadFull_loop_short r size [] Hshort) as [r' ->]. cbn [app].
  exists r'. destruct (Nat.leb_spec size (length (stream r))); [lia|].
  unfold short_read_error.
  destruct (stream_error r), (stream r); reflexivity.
Qed.

(** ** The encoder writes back what the decoder read *)

Lemma bytes_at_app b k n m :
  bytes_at b k n ++ bytes_at b (k + n) m = bytes_at b k (n + m).
Proof.
  unfold bytes_at. rewrite (Nat.add_comm k n), <- skipn_skipn.
  generalize (skipn k b) as l. intros l. revert l.
  induction n as [|n IH]; intros [|x l]; cbn; try reflexivity.
  - now rewrite firstn_nil.
  - now rewrite IH.
Qed.

Lemma writes_uint8 : writes 1 e_uint8 uint8_at.
Proof.
  intros b k H. apply LittleEndianFacts.index_byte. now apply length_bytes_at.
Qed.

Lemma writes_uint16 : writes 2 e_uint16 uint16_at.
Proof.
  intros b k H. apply LittleEndianFacts.PutUint16_Uint16.
  now apply length_bytes_at.
Qed.

Lemma writes_uint32 : writes 4 e_uint32 uint32_at.
Proof.
  intros b k H. apply LittleEndianFacts.PutUint32_Uint32.
  now apply length_bytes_at.
Qed.

Lemma writes_uint64 : writes 8 e_uint64 uint64_at.
Proof.
  intros b k H. apply LittleEndianFacts.PutUint64_Uint64.
  now apply length_bytes_at.
Qed.

Lemma writes_int32 : writes 4 e_int32 int32_at.
Proof.
  intros b k H. unfold e_int32, int32_at.
  rewrite uint32_of_int32_of_uint32.
  - now apply writes_uint32.
  - apply LittleEndianFacts.Uint32_range. now apply length_bytes_at.
Qed.

Lemma writes_array {A} w (e : A -> list byte) at_ n :
  writes w e at_ ->
  writes (n * w) (e_array e) (fun b k => array_at at_ w b k n).
Proof.
  intros He. induction n as [|n IH]; intros b k H.
  - reflexivity.
  - rewrite array_at_S. unfold e_array in *. cbn [map concat].
    rewrite (He b k) by (cbn in H; lia).
    rewrite (IH b (k + w)%nat) by (cbn in H; lia).
    apply bytes_at_app.
Qed.

Lemma write_step {A} w (e : A -> list byte) at_ b k rest :
  writes w e at_ -> (k + w <=? length b)%nat = true ->
  rest = skipn (k + w) b ->
  e (at_ b k) ++ rest = skipn k b.
Proof.
  intros He H ->. apply Nat.leb_le in H.
  rewrite (He b k H). apply bytes_at_skipn.
Qed.

Lemma write_last {A} w (e : A -> list byte) at_ b k :
  writes w e at_ -> (k + w =? length b)%nat = true ->
  e (at_ b k) = skipn k b.
Proof.
  intros He H. apply Nat.eqb_eq in H.
  rewrite (He b k) by lia.
  rewrite <- (bytes_at_skipn b k w), H, skipn_all. now rewrite app_nil_r.
Qed.

(** The fields of a record that is written out. *)
Ltac project_fields :=
  cbv beta iota delta [
    SInodesCount SBlocksCountLo SRBlocksCountLo SFreeBlocksCountLo
    SFreeInodesCount SFirstDataBlock SLogBlockSize SLogClusterSize
    SBlocksPerGroup SClustersPerGroup SInodesPerGroup SMtime SWtime
    SMntCount SMaxMntCount SMagic SState SErrors SMinorRevLevel SLastcheck
    SCheckinterval SCreatorOs SRevLevel SDefResuid SDefResgid SFirstIno
    SInodeSize SBlockGroupNr SFeatureCompat SFeatureIncompat
    SFeatureRoCompat SUuid SVolumeName SLastMounted SAlgorithmUsageBitmap
    SPreallocBlocks SPreallocDirBlocks SReservedGdtBlocks SJournalUuid
    SJournalInum SJournalDev SLastOrphan SHashSeed SDefHashVersion
    SJnlBackupType SDescSize SDefaultMountOpts SFirstMetaBg SMkfsTime
    SJnlBlocks SBlocksCountHi SRBlocksCountHi SFreeBlocksCountHi
    SMinExtraIsize SWantExtraIsize SFlags SRaidStride SMmpInterval
    SMmpBlock SRaidStripeWidth SLogGroupsPerFlex SChecksumType
    SEncryptionLevel SReservedPad SKbytesWritten SSnapshotInum SSnapshotId
    SSnapshotRBlocksCount SSnapshotList SErrorCount SFirstErrorTime
    SFirstErrorIno SFirstErrorBlock SFirstErrorFunc SFirstErrorLine
    SLastErrorTime SLastErrorIno SLastErrorLine SLastErrorBlock
    SLastErrorFunc SMountOpts SUsrQuotaInum SGrpQuotaInum
    SOverheadClusters SBackupBgs SEncryptAlgos SEncryptPwSalt SLpfIno
    SPrjQuotaInum SChecksumSeed SWtimeHi SMtimeHi SMkfsTimeHi SLastcheckHi
    SFirstErrorTimeHi SLastErrorTimeHi SPad SReserved SChecksum ].

(** One field of the encoding: its bytes are the next bytes of the buffer. *)
Ltac write_field Hlen :=
  let step H :=
    apply (write_step _ _ _ _ _ _ H);
    [ rewrite Hlen; reflexivity | cbn [Nat.add Nat.mul] ] in
  lazymatch goal with
  | |- e_uint8 _ ++ _ = _ => step writes_uint8
  | |- e_uint16 _ ++ _ = _ => step writes_uint16
  | |- e_uint32 _ ++ _ = _ => step writes_uint32
  | |- e_uint64 _ ++ _ = _ => step writes_uint64
  | |- e_array e_uint8 (array_at _ _ _ _ ?n) ++ _ = _ =>
      step (writes_array _ _ _ n writes_uint8)
  | |- e_array e_uint32 (array_at _ _ _ _ ?n) ++ _ = _ =>
      step (writes_array _ _ _ n writes_uint32)
  end.

Lemma e_Superblock_at_offsets b :
  length b = 1024%nat -> e_Superblock (Superblock_at_offsets b) = b.
Proof.
  intros Hlen. change b with (skipn 0 b) at 2.
  unfold e_Superblock, Superblock_at_offsets. project_fields.
  repeat write_field Hlen.
  apply (write_last _ _ _ _ _ writes_int32). now rewrite Hlen.
Qed.

(** ** ParseSuperblock on a source that holds a record, and on one that does not *)

Lemma dataSize_1024 : dataSize = 1024%nat.
Proof. reflexivity. Qed.

Lemma binary_Read_enough r sb :
  (1024 <= length (stream r))%nat ->
  exists r',
    binary_Read r sb
    = (Return (Superblock_at_offsets (firstn 1024 (stream r)), None), r')
    /\ contents r = firstn 1024 (stream r) ++ contents r'.
Proof.
  intros H. destruct (ReadFull_enough r 1024 H) as (r' & HR & Hc).
  exists r'. split; [|exact Hc].
  unfold binary_Read. rewrite dataSize_1024, HR.
  rewrite d_Superblock_at_offsets; [reflexivity|].
  rewrite length_firstn. lia.
Qed.

Lemma binary_Read_short r sb :
  (length (stream r) < 1024)%nat ->
  exists r',
    binary_Read r sb = (Return (sb, Some (IoError (short_read_error r))), r').
Proof.
  intros H. destruct (ReadFull_short r 1024 H) as (r' & HR).
  exists r'. unfold binary_Read. now rewrite dataSize_1024, HR.
Qed.

Lemma ParseSuperblock_enough r :
  (1024 <= length (stream r))%nat ->
  exists r',
    contents r = firstn 1024 (stream r) ++ contents r'
    /\ ParseSuperblock r
       = (let sb := Superblock_at_offsets (firstn 1024 (stream r)) in
          if SMagic sb =? Ext4Magic then Return (Some sb, None)
          else Panic (Wrapped ErrNotExt4),
          r').
Proof.
  intros H.
  destruct (binary_Read_enough r new_Superblock H) as (r' & HR & Hc).
  exists r'. split; [exact Hc|].
  unfold ParseSuperblock, ParseSuperblock_body. rewrite HR.
  cbv beta iota zeta delta [log_PanicIf].
  now destruct (SMagic _ =? Ext4Magic).
Qed.

Lemma ParseSuperblock_short r :
  (length (stream r) < 1024)%nat ->
  exists r',
    ParseSuperblock r = (Panic (Wrapped (IoError (short_read_error r))), r').
Proof.
  intros H.
  destruct (binary_Read_short r new_Superblock H) as (r' & HR).
  exists r'. unfold ParseSuperblock, ParseSuperblock_body. now rewrite HR.
Qed.



(** * The claims *)

(** ** C1: the record occupies 1024 bytes *)

(** C1 (as amended).  The size [binary.Read] computes for [Superblock] is 1024
    bytes.  On a buffer of that size the decoder returns the record of the
    documented layout: all 99 fields, reserved and padding fields included,
    each read little-endian at its offset, in declaration order with no field
    skipped, the read position ending at 1024; the magic is the field at
    offset 0x38 and the checksum, the last field, ends at offset 0x400.  For
    every byte source that supplies at least 1024 bytes, [ParseSuperblock]
    consumes exactly the first 1024 bytes [b] of the source, leaves the
    others in it, and the record [binary.Read] builds is the record of the
    layout over [b]. *)
Theorem ParseSuperblock_consumes_1024 :
  dataSize = 1024%nat
  /\ offsetof Superblock_type "SMagic" = Some 0x38%nat
  /\ offsetof Superblock_type "SChecksum" = Some 0x3FC%nat
  /\ (0x3FC + sizeof Int32 = 0x400)%nat
  /\ (forall b, length b = 1024%nat ->
        d_Superblock {| buf := b; offset := 0 |}
        = Some (Superblock_at_offsets b, {| buf := b; offset := 1024 |})
        /\ SMagic (Superblock_at_offsets b) = uint16_at b 0x38
        /\ SChecksum (Superblock_at_offsets b) = int32_at b 0x3FC)
  /\ (forall r, (1024 <= length (stream r))%nat ->
        exists b r',
          length b = 1024%nat
          /\ contents r = b ++ contents r'
          /\ snd (ParseSuperblock r) = r'
          /\ binary_Read r new_Superblock
             = (Return (Superblock_at_offsets b, None), r')).
Proof.
  do 4 (split; [reflexivity|]). split.
  - intros b Hlen. split; [now apply d_Superblock_at_offsets|].
    split; reflexivity.
  - intros r H.
    destruct (binary_Read_enough r new_Superblock H) as (r' & HR & Hc).
    exists (firstn 1024 (stream r)), r'.
    split; [rewrite length_firstn; lia|].
    split; [exact Hc|]. split; [|exact HR].
    unfold ParseSuperblock, ParseSuperblock_body. rewrite HR.
    cbv beta iota zeta delta [log_PanicIf].
    now destruct (negb _).
Qed.

(** Witness for C1: the in-memory reader of a 1024-byte image. *)
Lemma ParseSuperblock_consumes_1024_witness :
  let r := NewReader (image 0xEF53 2 1 4) in
  (1024 <= length (stream r))%nat
  /\ exists b r',
       length b = 1024%nat
       /\ contents r = b ++ contents r'
       /\ snd (ParseSuperblock r) = r'
       /\ binary_Read r new_Superblock
          = (Return (Superblock_at_offsets b, None), r').
Proof.
  assert (H : (1024 <= length (stream (NewReader (image 0xEF53 2 1 4))))%nat)
    by (apply Nat.leb_le; vm_compute; reflexivity).
  split; [exact H|].
  exact (proj2 (proj2 (proj2 (proj2 (proj2 ParseSuperblock_consumes_1024))))
           (NewReader (image 0xEF53 2 1 4)) H).
Defined.

(** Counterexample to C1 as stated ("for every byte source"): from a source
    that holds ten bytes [ParseSuperblock] takes the ten bytes and fails;
    there are no 1024 bytes it could have consumed. *)
Lemma ParseSuperblock_short_source_not_1024 :
  let r := NewReader (repeat Byte.x00 10) in
  ParseSuperblock r = (Panic (Wrapped (IoError ErrUnexpectedEOF)), [])
  /\ length (contents r) = 10%nat
  /\ ~ (exists b r', length b = 1024%nat /\ contents r = b ++ contents r').
Proof.
  cbv zeta. split; [reflexivity|]. split; [reflexivity|].
  intros (b & r' & Hb & Hc).
  apply (f_equal (@length byte)) in Hc.
  rewrite length_app, Hb in Hc. cbn in Hc. lia.
Qed.

(** ** C2: round trip *)

(** C2.  For every 1024-byte buffer [b] whose little-endian 16-bit field at
    offset 0x38 is 0xEF53, and every source that supplies [b] (the in-memory
    reader of [b] is one), [ParseSuperblock] returns a record and a nil error;
    every field of the record is what lies at the field's offset in [b], and
    encoding the record gives [b] back. *)
Theorem ParseSuperblock_round_trip (b rest : list byte) (r : Reader) :
  length b = 1024%nat ->
  stream r = b ++ rest ->
  uint16_at b 0x38 = Ext4Magic ->
  exists sb r',
    ParseSuperblock r = (Return (Some sb, None), r')
    /\ sb = Superblock_at_offsets b
    /\ e_Superblock sb = b.
Proof.
  intros Hlen Hs Hmagic.
  assert (Hb : firstn 1024 (stream r) = b).
  { rewrite Hs, <- Hlen, firstn_app, Nat.sub_diag, firstn_all, firstn_O.
    apply app_nil_r. }
  destruct (ParseSuperblock_enough r) as (r' & _ & HP).
  { rewrite Hs, length_app. lia. }
  rewrite Hb in HP. cbv zeta in HP.
  assert (Hm : SMagic (Superblock_at_offsets b) = Ext4Magic) by exact Hmagic.
  rewrite Hm, Z.eqb_refl in HP.
  exists (Superblock_at_offsets b), r'.
  split; [exact HP|]. split; [reflexivity|].
  now apply e_Superblock_at_offsets.
Qed.

(** Witness for C2: [bytes.NewReader] over a crafted image. *)
Lemma ParseSuperblock_round_trip_witness :
  let b := image 0xEF53 2 1 4 in
  length b = 1024%nat
  /\ stream (NewReader b) = b ++ []
  /\ uint16_at b 0x38 = Ext4Magic
  /\ exists sb r',
    ParseSuperblock (NewReader b) = (Return (Some sb, None), r')
    /\ sb = Superblock_at_offsets b
    /\ e_Superblock sb = b.
Proof.
  assert (H1 : length (image 0xEF53 2 1 4) = 1024%nat) by reflexivity.
  assert (H2 : stream (NewReader (image 0xEF53 2 1 4))
               = image 0xEF53 2 1 4 ++ []) by reflexivity.
  assert (H3 : uint16_at (image 0xEF53 2 1 4) 0x38 = Ext4Magic)
    by (vm_compute; reflexivity).
  repeat split; try assumption.
  exact (ParseSuperblock_round_trip _ _ _ H1 H2 H3).
Defined.

(** ** C3: a wrong magic *)



(** ** C4: a read failure *)




(** ** C5: the block size *)

Lemma uint32_of_float64_range out_of_range f :
  0 <= f_nonneg f -> 0 <= uint32_of_float64 out_of_range f < 2 ^ 32.
Proof.
  intros H. unfold uint32_of_float64.
  destruct f as [z|]; cbn [f_nonneg] in H.
  - destruct (Z.ltb_spec z (2 ^ 32)); [lia|].
    apply Z.mod_pos_bound. lia.
  - apply Z.mod_pos_bound. lia.
Qed.

Lemma BlockSize_is_uint32 out_of_range sb :
  0 <= SLogBlockSize sb -> is_uint 32 (BlockSize out_of_range sb).
Proof.
  intros H. apply uint32_of_float64_range.
  cbn [float64_of_uint32 float64_add math_Pow2].
  destruct (10 + SLogBlockSize sb <=? 1023); cbn [f_nonneg]; [|lia].
  apply Z.pow_nonneg. lia.
Qed.

(** C5 (as amended).  For every record whose [SLogBlockSize] is at most 21,
    [BlockSize] returns [2^(10 + SLogBlockSize)]: 1024 for 0, 4096 for 2,
    65536 for 6.  From 22 on the power does not fit the uint32 that
    [BlockSize] returns, and the result, whatever the platform makes of the
    conversion, is another number. *)
Theorem BlockSize_power_of_two (out_of_range : float64 -> Z) (sb : Superblock) :
  is_uint 32 (SLogBlockSize sb) ->
  (SLogBlockSize sb <= 21 ->
     BlockSize out_of_range sb = 2 ^ (10 + SLogBlockSize sb))
  /\ (SLogBlockSize sb = 0 -> BlockSize out_of_range sb = 1024)
  /\ (SLogBlockSize sb = 2 -> BlockSize out_of_range sb = 4096)
  /\ (SLogBlockSize sb = 6 -> BlockSize out_of_range sb = 65536)
  /\ (22 <= SLogBlockSize sb ->
        is_uint 32 (BlockSize out_of_range sb)
        /\ BlockSize out_of_range sb < 2 ^ (10 + SLogBlockSize sb)).
Proof.
  intros [Hlo Hhi].
  assert (Hsmall : SLogBlockSize sb <= 21 ->
            BlockSize out_of_range sb = 2 ^ (10 + SLogBlockSize sb)).
  { intros H. unfold BlockSize, float64_of_uint32.
    cbn [float64_add math_Pow2 uint32_of_float64].
    destruct (Z.leb_spec (10 + SLogBlockSize sb) 1023); [|lia].
    cbn [uint32_of_float64].
    destruct (Z.ltb_spec (2 ^ (10 + SLogBlockSize sb)) (2 ^ 32)); [reflexivity|].
    assert (2 ^ (10 + SLogBlockSize sb) <= 2 ^ 31)
      by (apply Z.pow_le_mono_r; lia).
    lia. }
  pose proof (BlockSize_is_uint32 out_of_range sb Hlo) as Hu.
  repeat split; try apply Hu.
  - exact Hsmall.
  - intros H. rewrite Hsmall, H by lia. reflexivity.
  - intros H. rewrite Hsmall, H by lia. reflexivity.
  - intros H. rewrite Hsmall, H by lia. reflexivity.
  - assert (2 ^ 32 <= 2 ^ (10 + SLogBlockSize sb))
      by (apply Z.pow_le_mono_r; lia).
    destruct Hu. lia.
Qed.

(** Witness for C5: exponent 6, on a platform that leaves zero. *)
Lemma BlockSize_power_of_two_witness :
  let sb := Superblock_at_offsets (image 0xEF53 6 1 4) in
  is_uint 32 (SLogBlockSize sb)
  /\ SLogBlockSize sb = 6
  /\ BlockSize (fun _ => 0) sb = 65536.
Proof.
  assert (H : is_uint 32 (SLogBlockSize (Superblock_at_offsets (image 0xEF53 6 1 4))))
    by (vm_compute; split; [discriminate | reflexivity]).
  split; [exact H|]. split; [vm_compute; reflexivity|].
  apply (BlockSize_power_of_two (fun _ => 0) _ H).
  vm_compute. reflexivity.
Defined.

(** Counterexample to C5 as stated ("for every value of the stored uint32
    exponent"): a volume whose exponent is 22 parses, and on no platform is
    its [BlockSize] the power [2^32]. *)
Lemma BlockSize_exponent_22 :
  let b := image 0xEF53 22 1 4 in
  let sb := Superblock_at_offsets b in
  ParseSuperblock (NewReader b) = (Return (Some sb, None), [])
  /\ SLogBlockSize sb = 22
  /\ BlockSize (fun _ => 0) sb = 0
  /\ (forall out_of_range,
        BlockSize out_of_range sb <> 2 ^ (10 + SLogBlockSize sb)).
Proof.
  cbv zeta.
  assert (Hexp : SLogBlockSize (Superblock_at_offsets (image 0xEF53 22 1 4)) = 22)
    by (vm_compute; reflexivity).
  split; [vm_compute; reflexivity|].
  split; [exact Hexp|].
  split; [vm_compute; reflexivity|].
  intros out_of_range.
  destruct (BlockSize_is_uint32 out_of_range
              (Superblock_at_offsets (image 0xEF53 22 1 4))) as [_ Hlt].
  { rewrite Hexp. lia. }
  rewrite Hexp. change (2 ^ (10 + 22)) with (2 ^ 32). lia.
Qed.

(** ** C6: the feature predicates *)

Lemma gtb_land_nonzero x mask :
  0 <= mask -> (Z.land x mask >? 0) = true <-> Z.land x mask <> 0.
Proof.
  intros H. assert (0 <= Z.land x mask) by (apply Z.land_nonneg; now right).
  rewrite Z.gtb_ltb, Z.ltb_lt. lia.
Qed.

Lemma lookup_list_to_map_In (l : list (string * Z)) name m :
  (list_to_map l : gmap string Z) !! name = Some m -> In (name, m) l.
Proof. intros H. apply list_elem_of_In. now apply elem_of_list_to_map_2. Qed.

(** The entries of a lookup table, one case each. *)
Ltac registry_cases H :=
  apply lookup_list_to_map_In in H; cbn [In] in H;
  repeat (destruct H as [H|H]; [injection H as <- <- | ]);
  [.. | contradiction].

(** C6.  For every record and every uint32 mask, each of the three predicates
    is true exactly when the bitwise AND of the mask and the stored feature
    field of its category is not zero.  A record whose [SFeatureCompat] is
    the has-journal bit alone has that feature and no other compatible
    feature of the registry. *)
Theorem HasFeature_iff_land_nonzero (sb : Superblock) :
  (forall mask, is_uint 32 mask ->
     (HasCompatibleFeature sb mask = true
        <-> Z.land (SFeatureCompat sb) mask <> 0)
     /\ (HasReadonlyCompatibleFeature sb mask = true
        <-> Z.land (SFeatureRoCompat sb) mask <> 0)
     /\ (HasIncompatibleFeature sb mask = true
        <-> Z.land (SFeatureIncompat sb) mask <> 0))
  /\ (SFeatureCompat sb = SbFeatureCompatHasJournal ->
      HasCompatibleFeature sb SbFeatureCompatHasJournal = true
      /\ forall name m,
           SbFeatureCompatLookup !! name = Some m ->
           m <> SbFeatureCompatHasJournal ->
           HasCompatibleFeature sb m = false).
Proof.
  split.
  - intros mask [Hmask _].
    split; [|split]; now apply gtb_land_nonzero.
  - intros Hj. unfold HasCompatibleFeature. rewrite Hj. split; [reflexivity|].
    intros name m Hm Hne. unfold SbFeatureCompatLookup in Hm.
    registry_cases Hm; try reflexivity; now destruct Hne.
Qed.

(** Witness for C6: the record of an image whose compatible features are the
    has-journal bit, asked for that bit and for the others. *)
Lemma HasFeature_iff_land_nonzero_witness :
  let sb := Superblock_at_offsets (image 0xEF53 2 1 0x0004) in
  is_uint 32 SbFeatureCompatHasJournal
  /\ SFeatureCompat sb = SbFeatureCompatHasJournal
  /\ (HasCompatibleFeature sb SbFeatureCompatHasJournal = true
      <-> Z.land (SFeatureCompat sb) SbFeatureCompatHasJournal <> 0)
  /\ HasCompatibleFeature sb SbFeatureCompatHasJournal = true
  /\ forall name m,
       SbFeatureCompatLookup !! name = Some m ->
       m <> SbFeatureCompatHasJournal ->
       HasCompatibleFeature sb m = false.
Proof.
  assert (H : is_uint 32 SbFeatureCompatHasJournal)
    by (vm_compute; split; [discriminate | reflexivity]).
  assert (Hj : SFeatureCompat (Superblock_at_offsets (image 0xEF53 2 1 0x0004))
               = SbFeatureCompatHasJournal) by (vm_compute; reflexivity).
  split; [exact H|]. split; [exact Hj|].
  split.
  - exact (proj1 (proj1 (HasFeature_iff_land_nonzero _) _ H)).
  - exact (proj2 (HasFeature_iff_land_nonzero _) Hj).
Defined.

(** ** C7: the extended zone *)

(** C7.  [HasExtended] is true exactly when [SRevLevel] is at least 1: false
    at revision 0, true at revision 1; a record with the same [SRevLevel]
    gets the same answer whatever its other fields hold. *)
Theorem HasExtended_iff_dynamic_rev (sb : Superblock) :
  (HasExtended sb = true <-> SRevLevel sb >= 1)
  /\ (SRevLevel sb = 0 -> HasExtended sb = false)
  /\ (SRevLevel sb = 1 -> HasExtended sb = true)
  /\ (forall sb', SRevLevel sb' = SRevLevel sb ->
                  HasExtended sb' = HasExtended sb).
Proof.
  unfold HasExtended, SbRevlevelDynamicRev. repeat split.
  - intros H. rewrite Z.geb_leb in H. apply Z.leb_le in H. lia.
  - intros H. rewrite Z.geb_leb. apply Z.leb_le. lia.
  - now intros ->.
  - now intros ->.
  - now intros sb' ->.
Qed.

(** Witness for C7: two records of revision 1 that differ in the extended
    zone (the compatible features at offset 0x5C) and in the base zone (the
    block-size exponent). *)
Lemma HasExtended_iff_dynamic_rev_witness :
  let sb := Superblock_at_offsets (image 0xEF53 2 1 0) in
  let sb' := Superblock_at_offsets (image 0xEF53 0 1 0xFFFFFFFF) in
  SRevLevel sb' = SRevLevel sb
  /\ SFeatureCompat sb <> SFeatureCompat sb'
  /\ SLogBlockSize sb <> SLogBlockSize sb'
  /\ HasExtended sb = true
  /\ HasExtended sb' = HasExtended sb.
Proof.
  assert (H : SRevLevel (Superblock_at_offsets (image 0xEF53 0 1 0xFFFFFFFF))
              = SRevLevel (Superblock_at_offsets (image 0xEF53 2 1 0)))
    by (vm_compute; reflexivity).
  split; [exact H|]. split; [vm_compute; discriminate|].
  split; [vm_compute; discriminate|].
  destruct (HasExtended_iff_dynamic_rev
              (Superblock_at_offsets (image 0xEF53 2 1 0)))
    as (_ & _ & H1 & Heq).
  split; [apply H1; vm_compute; reflexivity | exact (Heq _ H)].
Defined.

(** ** C8 and C10: the registry *)

(** A listing in strictly ascending order. *)
Ltac ascending :=
  repeat (apply SSorted_cons; [|repeat (constructor; [reflexivity|]); constructor]);
  apply SSorted_nil.

(** Every name of the listing has the mask the reference table gives it. *)
Ltac canonical :=
  repeat (constructor;
          [eexists; split; cycle 1;
           [vm_compute; reflexivity | solve [vm_compute; auto 12]]|]);
  constructor.

(** C8.  Each of the three name listings is in ascending lexical order, and
    the lookup map of its category binds every listed name to the mask that
    fs/ext4/ext4.h gives the feature: has-journal is 0x0004, extents 0x0040,
    64bit 0x0080. *)
Theorem SbFeatureNames_sorted_canonical :
  (StronglySorted string_lt SbFeatureCompatNames
   /\ StringsAreSorted SbFeatureCompatNames = true
   /\ names_bound_as SbFeatureCompatNames SbFeatureCompatLookup ext4_h_compat)
  /\ (StronglySorted string_lt SbFeatureRoCompatNames
      /\ StringsAreSorted SbFeatureRoCompatNames = true
      /\ names_bound_as SbFeatureRoCompatNames SbFeatureRoCompatLookup
                        ext4_h_ro_compat)
  /\ (StronglySorted string_lt SbFeatureIncompatNames
      /\ StringsAreSorted SbFeatureIncompatNames = true
      /\ names_bound_as SbFeatureIncompatNames SbFeatureIncompatLookup
                        ext4_h_incompat)
  /\ SbFeatureCompatLookup !! "HasJournal"%string = Some 0x0004
  /\ SbFeatureIncompatLookup !! "Extents"%string = Some 0x0040
  /\ SbFeatureIncompatLookup !! "64bit"%string = Some 0x0080.
Proof.
  split; [|split; [|split]].
  - unfold names_bound_as, SbFeatureCompatNames.
    split; [ascending|]. split; [reflexivity|]. canonical.
  - unfold names_bound_as, SbFeatureRoCompatNames.
    split; [ascending|]. split; [reflexivity|]. canonical.
  - unfold names_bound_as, SbFeatureIncompatNames.
    split; [ascending|]. split; [reflexivity|]. canonical.
  - repeat split.
Qed.

(** A mask of a table is one of the bits 0 to 9. *)
Ltac find_bit :=
  first [ exists 0; split; [lia | reflexivity]
        | exists 1; split; [lia | reflexivity]
        | exists 2; split; [lia | reflexivity]
        | exists 3; split; [lia | reflexivity]
        | exists 4; split; [lia | reflexivity]
        | exists 5; split; [lia | reflexivity]
        | exists 6; split; [lia | reflexivity]
        | exists 7; split; [lia | reflexivity]
        | exists 8; split; [lia | reflexivity]
        | exists 9; split; [lia | reflexivity] ].

(** The second of two entries with the same mask is the first. *)
Ltac same_entry H :=
  let Hm := fresh "Hm" in
  apply lookup_list_to_map_In in H; cbn [In] in H;
  repeat (destruct H as [H|H];
          [first [ injection H as <-; reflexivity
                 | injection H as _ Hm; vm_compute in Hm; discriminate Hm ] | ]);
  contradiction.

Ltac registry :=
  split; [|split; [|split]];
  [ intros name m H; registry_cases H; (split; [find_bit | discriminate])
  | intros n1 n2 m H1 H2; registry_cases H1; same_entry H2
  | intros name; split;
    [ cbn [In]; intros H;
      repeat (destruct H as [<-|H]; [eexists; reflexivity|]); contradiction
    | intros [m H]; registry_cases H; cbn [In]; tauto ]
  | repeat (constructor;
            [rewrite list_elem_of_In; cbn [In]; intuition discriminate|]);
    constructor ].

Lemma registry_ok_compat :
  registry_ok SbFeatureCompatNames SbFeatureCompatLookup.
Proof. unfold registry_ok, SbFeatureCompatNames, SbFeatureCompatLookup. registry. Qed.

Lemma registry_ok_ro_compat :
  registry_ok SbFeatureRoCompatNames SbFeatureRoCompatLookup.
Proof. unfold registry_ok, SbFeatureRoCompatNames, SbFeatureRoCompatLookup. registry. Qed.

Lemma registry_ok_incompat :
  registry_ok SbFeatureIncompatNames SbFeatureIncompatLookup.
Proof. unfold registry_ok, SbFeatureIncompatNames, SbFeatureIncompatLookup. registry. Qed.

Section DumpLines.

Variables (names : list string) (lookup : gmap string Z).
Hypothesis Hok : registry_ok names lookup.

Lemma Dump_features_lines has :
  dump_ok lookup (Dump_features names lookup has).
Proof.
  destruct Hok as (Hbit & Hinj & Hkeys & _).
  assert (Hline : forall name bit h,
            In (name, bit, h) (Dump_features names lookup has) ->
            lookup !! name = Some bit).
  { intros name bit h Hin. unfold Dump_features in Hin.
    apply in_map_iff in Hin as (n & Heq & Hn). injection Heq as -> <- _.
    apply Hkeys in Hn as [m Hm]. unfold map_index. now rewrite Hm. }
  intros name bit h Hin. pose proof (Hline _ _ _ Hin) as Hm.
  split; [exact Hm|]. split; [now apply (Hbit name)|].
  split; [now apply (Hbit name)|].
  intros name' h' Hin'. apply (Hinj name' name bit); eauto.
Qed.

End DumpLines.

(** C10.  In each category every mask of the lookup map is a single bit (and
    so is not zero), no two names share a mask, and the names listing holds
    the keys of the lookup map, each once.  Hence every line of [Dump]'s three
    listings carries the mask the map binds to its name, a single non-zero
    bit that no other line of the listing has. *)
Theorem registry_masks_single_distinct :
  registry_ok SbFeatureCompatNames SbFeatureCompatLookup
  /\ registry_ok SbFeatureRoCompatNames SbFeatureRoCompatLookup
  /\ registry_ok SbFeatureIncompatNames SbFeatureIncompatLookup
  /\ (forall sb,
        dump_ok SbFeatureCompatLookup (Dump_Compatible sb)
        /\ dump_ok SbFeatureRoCompatLookup (Dump_ReadonlyCompatible sb)
        /\ dump_ok SbFeatureIncompatLookup (Dump_Incompatible sb)).
Proof.
  split; [exact registry_ok_compat|].
  split; [exact registry_ok_ro_compat|].
  split; [exact registry_ok_incompat|].
  intros sb. split; [|split]; apply Dump_features_lines.
  - exact registry_ok_compat.
  - exact registry_ok_ro_compat.
  - exact registry_ok_incompat.
Qed.

(** Witness for C10: the line of the extents feature in the dump of a
    record. *)
Lemma registry_masks_single_distinct_witness :
  let sb := Superblock_at_offsets (image 0xEF53 2 1 4) in
  In ("Extents"%string, 0x0040, false) (Dump_Incompatible sb)
  /\ SbFeatureIncompatLookup !! "Extents"%string = Some 0x0040
  /\ single_bit 0x0040
  /\ 0x0040 <> 0.
Proof.
  assert (H : In ("Extents"%string, 0x0040, false)
                 (Dump_Incompatible (Superblock_at_offsets (image 0xEF53 2 1 4))))
    by (vm_compute; tauto).
  split; [exact H|].
  destruct registry_masks_single_distinct as (_ & _ & _ & Hdump).
  destruct (Hdump (Superblock_at_offsets (image 0xEF53 2 1 4))) as (_ & _ & Hd).
  destruct (Hd _ _ _ H) as (H1 & H2 & H3 & _).
  auto.
Defined.

(** ** C9: what a normal return carries *)

(** C9.  Whenever [ParseSuperblock] returns (rather than panics), the error
    it returns is nil, the pointer is not nil, and the magic of the record is
    0xEF53. *)
Theorem ParseSuperblock_returns (r r' : Reader)
    (sb : option Superblock) (err : option error) :
  ParseSuperblock r = (Return (sb, err), r') ->
  err = None /\ exists s, sb = Some s /\ SMagic s = Ext4Magic.
Proof.
  intros HP.
  destruct (Nat.le_gt_cases 1024 (length (stream r))) as [H|H].
  - destruct (ParseSuperblock_enough r H) as (r'' & _ & HP').
    rewrite HP in HP'. cbv zeta in HP'.
    destruct (Z.eqb_spec (SMagic (Superblock_at_offsets (firstn 1024 (stream r))))
                         Ext4Magic) as [Hm|Hm].
    + injection HP' as -> -> _. split; [reflexivity|]. eauto.
    + discriminate.
  - destruct (ParseSuperblock_short r H) as (r'' & HP').
    rewrite HP in HP'. discriminate.
Qed.

(** Witness for C9. *)
Lemma ParseSuperblock_returns_witness :
  let b := image 0xEF53 2 1 4 in
  ParseSuperblock (NewReader b)
  = (Return (Some (Superblock_at_offsets b), None), [])
  /\ (@None error = None
      /\ exists s, Some (Superblock_at_offsets b) = Some s
                   /\ SMagic s = Ext4Magic).
Proof.
  assert (H : ParseSuperblock (NewReader (image 0xEF53 2 1 4))
              = (Return (Some (Superblock_at_offsets (image 0xEF53 2 1 4)), None), []))
    by (vm_compute; reflexivity).
  split; [exact H|].
  exact (ParseSuperblock_returns _ _ _ _ H).
Defined.

(** * Further properties of the code *)

(** ** What ParseSuperblock takes from its source *)

Lemma length_ReadFull_loop r : forall size got,
  (length got <= size)%nat ->
  (length (fst (fst (ReadFull_loop r size got))) <= size)%nat.
Proof.
  induction r as [|[data err] rest IH]; intros size got Hgot;
    cbn [ReadFull_loop].
  - destruct (size <=? length got)%nat; cbn; lia.
  - destruct (Nat.leb_spec size (length got)); [cbn; lia|].
    destruct (Nat.leb_spec (length data) (size - length got)).
    + destruct err as [e|].
      * cbn. rewrite length_app. lia.
      * apply IH. rewrite length_app. lia.
    + cbn. rewrite length_app, length_firstn. lia.
Qed.

(** [io.ReadFull] hands out the front of the stream, up to [size] bytes, and
    leaves every other byte in the source. *)
Lemma ReadFull_takes r size :
  fst (fst (ReadFull r size)) = firstn size (stream r)
  /\ contents r = firstn size (stream r) ++ contents (snd (ReadFull r size)).
Proof.
  destruct (Nat.le_gt_cases size (length (stream r))) as [H|H].
  - destruct (ReadFull_enough r size H) as (r' & -> & Hc). now split.
  - destruct (ReadFull_short r size H) as (r' & HR).
    pose proof (ReadFull_loop_contents r size []) as Hc.
    destruct (ReadFull_loop_short r size [] H) as (r'' & HL).
    unfold ReadFull in *. rewrite HL in *. cbn [app fst snd] in *.
    rewrite firstn_all2 by lia.
    injection HR as _ <-. now split.
Qed.

Lemma snd_ParseSuperblock r :
  snd (ParseSuperblock r) = snd (ReadFull r dataSize).
Proof.
  unfold ParseSuperblock, ParseSuperblock_body, binary_Read.
  destruct (ReadFull r dataSize) as [[b err] r'].
  destruct err as [e|]; [reflexivity|].
  destruct (d_Superblock _) as [[sb d]|]; [|reflexivity].
  cbv beta iota zeta delta [log_PanicIf snd].
  now destruct (negb _).
Qed.

(** X1.  Whatever the source and however the call ends, [ParseSuperblock]
    takes from the source the front of its stream, up to [SuperblockSize]
    (1024) bytes and never more; every other byte the source holds is still in
    it afterwards.  [SuperblockSize] is the size [binary.Read] computes for
    the struct. *)
Theorem ParseSuperblock_takes_at_most_SuperblockSize (r : Reader) :
  SuperblockSize = dataSize
  /\ contents r
     = firstn SuperblockSize (stream r) ++ contents (snd (ParseSuperblock r))
  /\ (length (firstn SuperblockSize (stream r)) <= SuperblockSize)%nat.
Proof.
  split; [reflexivity|]. split.
  - rewrite snd_ParseSuperblock. apply ReadFull_takes.
  - rewrite length_firstn. apply Nat.le_min_l.
Qed.

(** ** How a call can end *)

(** X2.  A call of [ParseSuperblock] ends in exactly one of three ways, which
    the source alone decides: with 1024 bytes and the magic, the record of
    those bytes and a nil error; with 1024 bytes and another magic, a panic
    with the wrapped [ErrNotExt4]; with fewer bytes, a panic with the wrapped
    read error.  The decoder never runs past its buffer: no call ends in a
    run-time error. *)
Theorem ParseSuperblock_outcomes (r : Reader) :
  let b := firstn 1024 (stream r) in
  ((1024 <= length (stream r))%nat
   /\ uint16_at b 0x38 = Ext4Magic
   /\ fst (ParseSuperblock r) = Return (Some (Superblock_at_offsets b), None))
  \/ ((1024 <= length (stream r))%nat
      /\ uint16_at b 0x38 <> Ext4Magic
      /\ fst (ParseSuperblock r) = Panic (Wrapped ErrNotExt4))
  \/ ((length (stream r) < 1024)%nat
      /\ fst (ParseSuperblock r)
         = Panic (Wrapped (IoError (short_read_error r)))).
Proof.
  cbv zeta.
  destruct (Nat.le_gt_cases 1024 (length (stream r))) as [H|H].
  - destruct (ParseSuperblock_enough r H) as (r' & _ & HP).
    cbv zeta in HP. rewrite HP. cbn [fst].
    change (SMagic (Superblock_at_offsets (firstn 1024 (stream r))))
      with (uint16_at (firstn 1024 (stream r)) 0x38).
    destruct (Z.eqb_spec (uint16_at (firstn 1024 (stream r)) 0x38) Ext4Magic).
    + left. auto.
    + right. left. auto.
  - destruct (ParseSuperblock_short r H) as (r' & HP).
    right. right. rewrite HP. auto.
Qed.

(** What a normal return tells about the source. *)
Lemma ParseSuperblock_Return_inv r sb err r' :
  ParseSuperblock r = (Return (sb, err), r') ->
  (1024 <= length (stream r))%nat
  /\ sb = Some (Superblock_at_offsets (firstn 1024 (stream r)))
  /\ err = None.
Proof.
  intros HP.
  destruct (Nat.le_gt_cases 1024 (length (stream r))) as [H|H].
  - destruct (ParseSuperblock_enough r H) as (r'' & _ & HP').
    rewrite HP in HP'. cbv zeta in HP'.
    destruct (SMagic _ =? Ext4Magic); [|discriminate].
    injection HP' as -> -> _. auto.
  - destruct (ParseSuperblock_short r H) as (r'' & HP').
    rewrite HP in HP'. discriminate.
Qed.

Lemma ParseSuperblock_Return_record r sb err r' :
  ParseSuperblock r = (Return (Some sb, err), r') ->
  (1024 <= length (stream r))%nat
  /\ sb = Superblock_at_offsets (firstn 1024 (stream r)).
Proof.
  intros HP. apply ParseSuperblock_Return_inv in HP as (H & Hsb & _).
  split; [exact H|].
  exact (f_equal (fun o => match o with Some s => s | None => sb end) Hsb).
Qed.

(** ** The outcome depends on the first 1024 bytes only *)

(** X3.  Two sources whose streams start with the same 1024 bytes make
    [ParseSuperblock] end the same way, however each source cuts the bytes into
    answers and whatever comes with or after the 1024th byte (more bytes, an
    error). *)
Theorem ParseSuperblock_first_1024_decide (r1 r2 : Reader) :
  (1024 <= length (stream r1))%nat ->
  firstn 1024 (stream r1) = firstn 1024 (stream r2) ->
  fst (ParseSuperblock r1) = fst (ParseSuperblock r2).
Proof.
  intros H1 Heq.
  assert (H2 : (1024 <= length (stream r2))%nat).
  { apply (f_equal (@length byte)) in Heq.
    rewrite !length_firstn in Heq. lia. }
  destruct (ParseSuperblock_enough r1 H1) as (r1' & _ & ->).
  destruct (ParseSuperblock_enough r2 H2) as (r2' & _ & ->).
  cbv zeta. cbn [fst]. now rewrite Heq.
Qed.

(** Witness for X3: an image in one answer, and the same image byte by byte
    at first, with an error reported with its last bytes and more bytes
    behind. *)
Lemma ParseSuperblock_first_1024_decide_witness :
  let b := image 0xEF53 2 1 4 in
  let r1 := NewReader b in
  let r2 := [ (firstn 1 b, None); ([], None); (firstn 1 (skipn 1 b), None);
              (skipn 2 b, Some (SourceError "input/output error"));
              (b, None) ] in
  (1024 <= length (stream r1))%nat
  /\ firstn 1024 (stream r1) = firstn 1024 (stream r2)
  /\ fst (ParseSuperblock r1) = fst (ParseSuperblock r2).
Proof.
  cbv zeta.
  assert (H1 : (1024 <= length (stream (NewReader (image 0xEF53 2 1 4))))%nat)
    by (apply Nat.leb_le; vm_compute; reflexivity).
  split; [exact H1|].
  assert (H2 : firstn 1024 (stream (NewReader (image 0xEF53 2 1 4)))
               = firstn 1024 (stream
                   [ (firstn 1 (image 0xEF53 2 1 4), None); ([], None);
                     (firstn 1 (skipn 1 (image 0xEF53 2 1 4)), None);
                     (skipn 2 (image 0xEF53 2 1 4),
                      Some (SourceError "input/output error"));
                     (image 0xEF53 2 1 4, None) ]))
    by (vm_compute; reflexivity).
  split; [exact H2|].
  exact (ParseSuperblock_first_1024_decide _ _ H1 H2).
Defined.

(** ** The record keeps every byte *)

(** X4.  Nothing of the 1024 bytes is lost in decoding: two sources from which
    [ParseSuperblock] returns the same record supplied the same first 1024
    bytes. *)
Theorem ParseSuperblock_injective (r1 r2 r1' r2' : Reader)
    (sb : option Superblock) (e1 e2 : option error) :
  ParseSuperblock r1 = (Return (sb, e1), r1') ->
  ParseSuperblock r2 = (Return (sb, e2), r2') ->
  firstn 1024 (stream r1) = firstn 1024 (stream r2).
Proof.
  intros HP1 HP2.
  apply ParseSuperblock_Return_inv in HP1 as (H1 & Hsb1 & _).
  apply ParseSuperblock_Return_inv in HP2 as (H2 & Hsb2 & _).
  rewrite Hsb1 in Hsb2.
  apply (f_equal (fun o => match o with
                           | Some s => e_Superblock s
                           | None => []
                           end)) in Hsb2.
  cbv beta iota in Hsb2.
  rewrite !e_Superblock_at_offsets in Hsb2 by (rewrite length_firstn; lia).
  exact Hsb2.
Qed.

(** Witness for X4: the same image read from two sources. *)
Lemma ParseSuperblock_injective_witness :
  let b := image 0xEF53 2 1 4 in
  let r2 := [(firstn 100 b, None); (skipn 100 b, Some EOF)] in
  ParseSuperblock (NewReader b)
  = (Return (Some (Superblock_at_offsets b), None), [])
  /\ ParseSuperblock r2
     = (Return (Some (Superblock_at_offsets b), None), [])
  /\ firstn 1024 (stream (NewReader b)) = firstn 1024 (stream r2).
Proof.
  cbv zeta.
  assert (H1 : ParseSuperblock (NewReader (image 0xEF53 2 1 4))
               = (Return (Some (Superblock_at_offsets (image 0xEF53 2 1 4)), None), []))
    by (vm_compute; reflexivity).
  assert (H2 : ParseSuperblock
                 [(firstn 100 (image 0xEF53 2 1 4), None);
                  (skipn 100 (image 0xEF53 2 1 4), Some EOF)]
               = (Return (Some (Superblock_at_offsets (image 0xEF53 2 1 4)), None), []))
    by (vm_compute; reflexivity).
  split; [exact H1|]. split; [exact H2|].
  exact (ParseSuperblock_injective _ _ _ _ _ _ _ H1 H2).
Defined.

(** ** Reading one record after another *)

Lemma ParseSuperblock_of_ReadFull r b r' :
  ReadFull r dataSize = (b, None, r') ->
  length b = 1024%nat ->
  ParseSuperblock r
  = (if uint16_at b 0x38 =? Ext4Magic
     then Return (Some (Superblock_at_offsets b), None)
     else Panic (Wrapped ErrNotExt4), r').
Proof.
  intros HR Hlen. unfold ParseSuperblock, ParseSuperblock_body, binary_Read.
  rewrite HR, (d_Superblock_at_offsets b Hlen).
  cbv beta iota zeta delta [log_PanicIf].
  change (SMagic (Superblock_at_offsets b)) with (uint16_at b 0x38).
  now destruct (uint16_at b 0x38 =? Ext4Magic).
Qed.

Lemma ReadFull_NewReader_more b rest :
  length b = 1024%nat -> rest <> [] ->
  ReadFull (NewReader (b ++ rest)) dataSize = (b, None, NewReader rest).
Proof.
  intros Hlen Hrest. rewrite dataSize_1024.
  assert (Hmore : (1024 < length (b ++ rest))%nat).
  { rewrite length_app. destruct rest; [contradiction|cbn; lia]. }
  unfold ReadFull, NewReader. cbn [ReadFull_loop length].
  change (1024 <=? 0)%nat with false. cbv beta iota.
  change (1024 - 0)%nat with 1024%nat.
  destruct (Nat.leb_spec (length (b ++ rest)) 1024); [lia|].
  cbn [app].
  assert (Hf : firstn 1024 (b ++ rest) = b).
  { rewrite <- Hlen, firstn_app, Nat.sub_diag, firstn_all, firstn_O.
    apply app_nil_r. }
  assert (Hs : skipn 1024 (b ++ rest) = rest).
  { rewrite <- Hlen, skipn_app, Nat.sub_diag, skipn_all. reflexivity. }
  rewrite Hf, Hs, Hlen. reflexivity.
Qed.

Lemma ReadFull_NewReader_exact b :
  length b = 1024%nat ->
  ReadFull (NewReader b) dataSize = (b, None, []).
Proof.
  intros Hlen. rewrite dataSize_1024.
  unfold ReadFull, NewReader. cbn [ReadFull_loop length].
  change (1024 <=? 0)%nat with false. cbv beta iota.
  change (1024 - 0)%nat with 1024%nat.
  cbn [app]. rewrite !Hlen, !Nat.leb_refl. cbv beta iota zeta.
  now rewrite Hlen, Nat.leb_refl.
Qed.

(** X5.  Calls compose along the source: from an in-memory reader over two
    1024-byte images, each with the magic, the first call returns the record
    of the first image, the second call, on the source as the first left it,
    the record of the second image, and the third call fails with the wrapped
    [io.EOF]. *)
Theorem ParseSuperblock_twice (b1 b2 : list byte) :
  length b1 = 1024%nat -> length b2 = 1024%nat ->
  uint16_at b1 0x38 = Ext4Magic -> uint16_at b2 0x38 = Ext4Magic ->
  exists r1 r2 r3,
    ParseSuperblock (NewReader (b1 ++ b2))
    = (Return (Some (Superblock_at_offsets b1), None), r1)
    /\ ParseSuperblock r1
       = (Return (Some (Superblock_at_offsets b2), None), r2)
    /\ ParseSuperblock r2 = (Panic (Wrapped (IoError EOF)), r3).
Proof.
  intros H1 H2 Hm1 Hm2.
  exists (NewReader b2), [], [].
  assert (Hne : b2 <> []) by (destruct b2; [discriminate | congruence]).
  split; [|split].
  - rewrite (ParseSuperblock_of_ReadFull _ _ _
               (ReadFull_NewReader_more b1 b2 H1 Hne) H1).
    now rewrite Hm1, Z.eqb_refl.
  - rewrite (ParseSuperblock_of_ReadFull _ _ _
               (ReadFull_NewReader_exact b2 H2) H2).
    now rewrite Hm2, Z.eqb_refl.
  - reflexivity.
Qed.

(** Witness for X5: two crafted images, one after the other. *)
Lemma ParseSuperblock_twice_witness :
  let b1 := image 0xEF53 2 1 4 in
  let b2 := image 0xEF53 0 0 0 in
  length b1 = 1024%nat /\ length b2 = 1024%nat
  /\ uint16_at b1 0x38 = Ext4Magic /\ uint16_at b2 0x38 = Ext4Magic
  /\ exists r1 r2 r3,
    ParseSuperblock (NewReader (b1 ++ b2))
    = (Return (Some (Superblock_at_offsets b1), None), r1)
    /\ ParseSuperblock r1
       = (Return (Some (Superblock_at_offsets b2), None), r2)
    /\ ParseSuperblock r2 = (Panic (Wrapped (IoError EOF)), r3).
Proof.
  cbv zeta.
  assert (H1 : length (image 0xEF53 2 1 4) = 1024%nat) by reflexivity.
  assert (H2 : length (image 0xEF53 0 0 0) = 1024%nat) by reflexivity.
  assert (H3 : uint16_at (image 0xEF53 2 1 4) 0x38 = Ext4Magic)
    by (vm_compute; reflexivity).
  assert (H4 : uint16_at (image 0xEF53 0 0 0) 0x38 = Ext4Magic)
    by (vm_compute; reflexivity).
  do 4 (split; [assumption|]).
  exact (ParseSuperblock_twice _ _ H1 H2 H3 H4).
Defined.

(** ** Masks of several bits *)

Lemma gtb_lor x y :
  0 <= x -> 0 <= y -> (Z.lor x y >? 0) = (x >? 0) || (y >? 0).
Proof.
  intros Hx Hy.
  assert (Hl : 0 <= Z.lor x y) by (apply Z.lor_nonneg; auto).
  pose proof (Z.lor_eq_0_iff x y) as H0.
  rewrite !Z.gtb_ltb.
  destruct (Z.ltb_spec 0 (Z.lor x y)), (Z.ltb_spec 0 x), (Z.ltb_spec 0 y);
    cbn; try reflexivity; exfalso; lia.
Qed.

Lemma gtb_land_lor f m1 m2 :
  0 <= m1 -> 0 <= m2 ->
  (Z.land f (Z.lor m1 m2) >? 0) = (Z.land f m1 >? 0) || (Z.land f m2 >? 0).
Proof.
  intros H1 H2. rewrite Z.land_lor_distr_r.
  apply gtb_lor; apply Z.land_nonneg; now right.
Qed.

(** X6.  A mask of several bits asks for any of them, not for all: each of
    the three predicates at the OR of two uint32 masks is the disjunction of
    the predicate at the two masks, and at the empty mask it is false. *)
Theorem HasFeature_any_bit (sb : Superblock) (m1 m2 : Z) :
  is_uint 32 m1 -> is_uint 32 m2 ->
  HasCompatibleFeature sb (Z.lor m1 m2)
  = HasCompatibleFeature sb m1 || HasCompatibleFeature sb m2
  /\ HasReadonlyCompatibleFeature sb (Z.lor m1 m2)
     = HasReadonlyCompatibleFeature sb m1 || HasReadonlyCompatibleFeature sb m2
  /\ HasIncompatibleFeature sb (Z.lor m1 m2)
     = HasIncompatibleFeature sb m1 || HasIncompatibleFeature sb m2
  /\ HasCompatibleFeature sb 0 = false
  /\ HasReadonlyCompatibleFeature sb 0 = false
  /\ HasIncompatibleFeature sb 0 = false.
Proof.
  intros [H1 _] [H2 _].
  unfold HasCompatibleFeature, HasReadonlyCompatibleFeature,
    HasIncompatibleFeature.
  rewrite !Z.land_0_r.
  repeat split; now apply gtb_land_lor.
Qed.

(** Witness for X6: a record with the has-journal bit alone, asked for
    has-journal or ext-attr. *)
Lemma HasFeature_any_bit_witness :
  let sb := Superblock_at_offsets (image 0xEF53 2 1 0x0004) in
  is_uint 32 SbFeatureCompatHasJournal /\ is_uint 32 SbFeatureCompatExtAttr
  /\ HasCompatibleFeature sb SbFeatureCompatExtAttr = false
  /\ HasCompatibleFeature sb
       (Z.lor SbFeatureCompatHasJournal SbFeatureCompatExtAttr)
     = HasCompatibleFeature sb SbFeatureCompatHasJournal
       || HasCompatibleFeature sb SbFeatureCompatExtAttr.
Proof.
  cbv zeta.
  assert (H1 : is_uint 32 SbFeatureCompatHasJournal)
    by (vm_compute; split; [discriminate | reflexivity]).
  assert (H2 : is_uint 32 SbFeatureCompatExtAttr)
    by (vm_compute; split; [discriminate | reflexivity]).
  split; [exact H1|]. split; [exact H2|]. split; [vm_compute; reflexivity|].
  exact (proj1 (HasFeature_any_bit _ _ _ H1 H2)).
Defined.

(** ** What Dump shows of a feature field *)

Lemma land_pow2 f k :
  0 <= k -> Z.land f (2 ^ k) = if Z.testbit f k then 2 ^ k else 0.
Proof.
  intros Hk. apply Z.bits_inj'. intros n Hn.
  rewrite Z.land_spec, Z.pow2_bits_eqb by assumption.
  destruct (Z.eqb_spec k n) as [->|Hne].
  - rewrite andb_true_r. destruct (Z.testbit f n) eqn:E.
    + now rewrite Z.pow2_bits_eqb, Z.eqb_refl.
    + now rewrite Z.testbit_0_l.
  - rewrite andb_false_r. destruct (Z.testbit f k).
    + rewrite Z.pow2_bits_eqb by assumption. symmetry. now apply Z.eqb_neq.
    + now rewrite Z.testbit_0_l.
Qed.

Lemma report_single_bit f m acc :
  single_bit m ->
  (if Z.land f m >? 0 then Z.lor m acc else acc) = Z.lor (Z.land f m) acc.
Proof.
  intros (k & [Hk _] & ->). rewrite land_pow2 by assumption.
  assert (0 < 2 ^ k) by (apply Z.pow_pos_nonneg; lia).
  destruct (Z.testbit f k).
  - rewrite Z.gtb_ltb. apply Z.ltb_lt in H. now rewrite H.
  - reflexivity.
Qed.

(** A listing of single bits reports the field cut down to the bits it asks
    about. *)
Lemma reported_Dump_features names lookup f :
  (forall name, In name names -> single_bit (map_index lookup name)) ->
  let lines := Dump_features names lookup (fun mask => Z.land f mask >? 0) in
  reported lines = Z.land f (asked lines)
  /\ map (fun line => fst (fst line)) lines = names.
Proof.
  cbv zeta. unfold Dump_features.
  induction names as [|name names IH]; intros Hbits.
  - cbn. now rewrite Z.land_0_r.
  - destruct IH as [IH1 IH2]; [intros n Hn; apply Hbits; now right|].
    cbn [map reported asked fold_right fst snd] in *.
    fold (reported (map (fun name0 =>
            (name0, map_index lookup name0,
             Z.land f (map_index lookup name0) >? 0)) names)).
    fold (asked (map (fun name0 =>
            (name0, map_index lookup name0,
             Z.land f (map_index lookup name0) >? 0)) names)).
    rewrite report_single_bit by (apply Hbits; now left).
    rewrite IH1, IH2, Z.land_lor_distr_r. now split.
Qed.

Lemma registry_ok_single_bits names lookup :
  registry_ok names lookup ->
  forall name, In name names -> single_bit (map_index lookup name).
Proof.
  intros (Hbit & _ & Hkeys & _) name Hin.
  apply Hkeys in Hin as [m Hm]. unfold map_index. rewrite Hm.
  now apply (Hbit name).
Qed.

(** X7.  [Dump] shows of each feature field exactly the bits of its
    registry: there is one line per listed name, in the order of the listing,
    and the masks of the lines reported as set, OR-ed together, are the
    stored field AND-ed with 0x3F (compatible), 0x7F (read-only compatible)
    and 0x3DF (incompatible).  A bit outside these masks, such as 0x20 of
    the incompatible field, shows in no line. *)
Theorem Dump_reports_registry_bits (sb : Superblock) :
  (map (fun line => fst (fst line)) (Dump_Compatible sb) = SbFeatureCompatNames
   /\ reported (Dump_Compatible sb) = Z.land (SFeatureCompat sb) 0x3F)
  /\ (map (fun line => fst (fst line)) (Dump_ReadonlyCompatible sb)
      = SbFeatureRoCompatNames
      /\ reported (Dump_ReadonlyCompatible sb)
         = Z.land (SFeatureRoCompat sb) 0x7F)
  /\ (map (fun line => fst (fst line)) (Dump_Incompatible sb)
      = SbFeatureIncompatNames
      /\ reported (Dump_Incompatible sb)
         = Z.land (SFeatureIncompat sb) 0x3DF).
Proof.
  split; [|split].
  - destruct (reported_Dump_features SbFeatureCompatNames SbFeatureCompatLookup
                (SFeatureCompat sb)
                (registry_ok_single_bits _ _ registry_ok_compat)) as [Hr Hn].
    split; [exact Hn|]. unfold Dump_Compatible, HasCompatibleFeature.
    rewrite Hr. f_equal.
  - destruct (reported_Dump_features SbFeatureRoCompatNames
                SbFeatureRoCompatLookup (SFeatureRoCompat sb)
                (registry_ok_single_bits _ _ registry_ok_ro_compat)) as [Hr Hn].
    split; [exact Hn|].
    unfold Dump_ReadonlyCompatible, HasReadonlyCompatibleFeature.
    rewrite Hr. f_equal.
  - destruct (reported_Dump_features SbFeatureIncompatNames
                SbFeatureIncompatLookup (SFeatureIncompat sb)
                (registry_ok_single_bits _ _ registry_ok_incompat)) as [Hr Hn].
    split; [exact Hn|].
    unfold Dump_Incompatible, HasIncompatibleFeature.
    rewrite Hr. f_equal.
Qed.

(** ** Every field of a decoded record fits its type *)

Lemma types_uint8 : types 1 uint8_at (is_uint 8).
Proof. intros b k _. apply LittleEndianFacts.index_range. Qed.

Lemma types_uint16 : types 2 uint16_at (is_uint 16).
Proof.
  intros b k H. apply LittleEndianFacts.Uint16_range. now apply length_bytes_at.
Qed.

Lemma types_uint32 : types 4 uint32_at (is_uint 32).
Proof.
  intros b k H. apply LittleEndianFacts.Uint32_range. now apply length_bytes_at.
Qed.

Lemma types_uint64 : types 8 uint64_at (is_uint 64).
Proof.
  intros b k H. apply LittleEndianFacts.Uint64_range. now apply length_bytes_at.
Qed.

Lemma types_int32 : types 4 int32_at (is_int 32).
Proof.
  intros b k H. apply int32_of_uint32_range. now apply types_uint32.
Qed.

Lemma types_array {A} w (at_ : list byte -> nat -> A) P n :
  types w at_ P ->
  types (n * w) (fun b k => array_at at_ w b k n) (is_array n P).
Proof.
  intros Ht b k H. split.
  - unfold array_at. now rewrite length_map, length_seq.
  - unfold array_at. apply List.Forall_forall. intros x Hx.
    apply in_map_iff in Hx as (i & <- & Hi). apply in_seq in Hi.
    apply Ht. nia.
Qed.

Lemma types_at {A} w (at_ : list byte -> nat -> A) P b k :
  types w at_ P -> (k + w <=? length b)%nat = true -> P (at_ b k).
Proof. intros Ht H. apply Ht. now apply Nat.leb_le. Qed.

(** One field of the record: the table entry holds a value of its type. *)
Ltac type_field Hlen :=
  let go H := apply (types_at _ _ _ _ _ H); rewrite Hlen; reflexivity in
  lazymatch goal with
  | |- is_uint 8 (uint8_at _ _) => go types_uint8
  | |- is_uint 16 (uint16_at _ _) => go types_uint16
  | |- is_uint 32 (uint32_at _ _) => go types_uint32
  | |- is_uint 64 (uint64_at _ _) => go types_uint64
  | |- is_int 32 (int32_at _ _) => go types_int32
  | |- is_array ?n _ (array_at uint8_at _ _ _ ?n) =>
      go (types_array _ _ _ n types_uint8)
  | |- is_array ?n _ (array_at uint32_at _ _ _ ?n) =>
      go (types_array _ _ _ n types_uint32)
  end.

Lemma well_typed_at_offsets b :
  length b = 1024%nat -> well_typed (Superblock_at_offsets b).
Proof.
  intros Hlen. unfold well_typed, Superblock_at_offsets. project_fields.
  repeat match goal with |- _ /\ _ => split end; type_field Hlen.
Qed.

(** X8.  Every record [ParseSuperblock] returns is well typed: each field
    holds a value of the Go type the struct declares for it (the unsigned
    fields between 0 and the maximum of their width, the checksum a signed
    32-bit number) and each array has its declared number of elements. *)
Theorem ParseSuperblock_well_typed (r r' : Reader) (sb : Superblock)
    (err : option error) :
  ParseSuperblock r = (Return (Some sb, err), r') -> well_typed sb.
Proof.
  intros HP. apply ParseSuperblock_Return_record in HP as (H & ->).
  apply well_typed_at_offsets. rewrite length_firstn. lia.
Qed.

(** Witness for X8. *)
Lemma ParseSuperblock_well_typed_witness :
  let b := image 0xEF53 2 1 4 in
  ParseSuperblock (NewReader b)
  = (Return (Some (Superblock_at_offsets b), None), [])
  /\ well_typed (Superblock_at_offsets b).
Proof.
  cbv zeta.
  assert (H : ParseSuperblock (NewReader (image 0xEF53 2 1 4))
              = (Return (Some (Superblock_at_offsets (image 0xEF53 2 1 4)), None), []))
    by (vm_compute; reflexivity).
  split; [exact H|].
  exact (ParseSuperblock_well_typed _ _ _ _ H).
Defined.

(** ** The time accessors *)

Lemma time_Unix_whole sec : time_Unix sec 0 = {| Unix := sec; Nanosecond := 0 |}.
Proof. reflexivity. Qed.

(** X9.  For every record [ParseSuperblock] returns, [MountTime],
    [WriteTime] and [LastCheckTime] are whole seconds read from the 32-bit
    fields at offsets 0x2C, 0x30 and 0x40 of the bytes decoded: never before
    the epoch and never [2^32] seconds or more after it; the high-order time
    bytes at offsets 0x274 to 0x277 do not enter. *)
Theorem time_accessors_32_bit (r r' : Reader) (sb : Superblock)
    (err : option error) :
  ParseSuperblock r = (Return (Some sb, err), r') ->
  let b := firstn 1024 (stream r) in
  (MountTime sb = {| Unix := uint32_at b 0x2C; Nanosecond := 0 |}
   /\ 0 <= Unix (MountTime sb) < 2 ^ 32)
  /\ (WriteTime sb = {| Unix := uint32_at b 0x30; Nanosecond := 0 |}
      /\ 0 <= Unix (WriteTime sb) < 2 ^ 32)
  /\ (LastCheckTime sb = {| Unix := uint32_at b 0x40; Nanosecond := 0 |}
      /\ 0 <= Unix (LastCheckTime sb) < 2 ^ 32).
Proof.
  intros HP. cbv zeta.
  apply ParseSuperblock_Return_record in HP as (H & ->).
  assert (Hlen : length (firstn 1024 (stream r)) = 1024%nat)
    by (rewrite length_firstn; lia).
  assert (Hu : forall k, (k + 4 <=? 1024)%nat = true ->
                 0 <= uint32_at (firstn 1024 (stream r)) k < 2 ^ 32).
  { intros k Hk. apply (types_at _ _ _ _ _ types_uint32). now rewrite Hlen. }
  unfold MountTime, WriteTime, LastCheckTime, int64_of_uint32.
  rewrite !time_Unix_whole.
  cbn [Unix SMtime SWtime SLastcheck Superblock_at_offsets].
  split; [|split]; (split; [reflexivity | apply Hu; reflexivity]).
Qed.

(** Witness for X9: an image whose mount time is the largest 32-bit number. *)
Lemma time_accessors_32_bit_witness :
  let b := patch 0x2C (LittleEndian.PutUint32 0xFFFFFFFF) (image 0xEF53 2 1 4) in
  ParseSuperblock (NewReader b)
  = (Return (Some (Superblock_at_offsets b), None), [])
  /\ Unix (MountTime (Superblock_at_offsets b)) = 4294967295
  /\ 0 <= Unix (MountTime (Superblock_at_offsets b)) < 2 ^ 32.
Proof.
  cbv zeta.
  assert (H : ParseSuperblock
                (NewReader (patch 0x2C (LittleEndian.PutUint32 0xFFFFFFFF)
                                  (image 0xEF53 2 1 4)))
              = (Return (Some (Superblock_at_offsets
                                 (patch 0x2C (LittleEndian.PutUint32 0xFFFFFFFF)
                                        (image 0xEF53 2 1 4))), None), []))
    by (vm_compute; reflexivity).
  split; [exact H|]. split; [vm_compute; reflexivity|].
  exact (proj2 (proj1 (time_accessors_32_bit _ _ _ _ H))).
Defined.

(** ** Decoding what was encoded *)

Lemma Uint64_PutUint64 v :
  LittleEndian.Uint64 (LittleEndian.PutUint64 v) = v mod 2 ^ 64.
Proof.
  unfold LittleEndian.PutUint64. rewrite LittleEndianFacts.Uint64_le_combine.
  exact (le_combine_split 8 v).
Qed.

Lemma int32_of_uint32_of_int32 v :
  is_int 32 v -> int32_of_uint32 (uint32_of_int32 v) = v.
Proof.
  intros [Hlo Hhi]. unfold int32_of_uint32, uint32_of_int32.
  change (2 ^ (32 - 1)) with (2 ^ 31) in *.
  destruct (Z.ltb_spec v 0).
  - replace (v mod 2 ^ 32) with (v + 2 ^ 32).
    + destruct (Z.ltb_spec (v + 2 ^ 32) (2 ^ 31)); lia.
    + symmetry. rewrite <- (Z.mod_add v 1) by lia. apply Z.mod_small. lia.
  - rewrite Z.mod_small by lia.
    destruct (Z.ltb_spec v (2 ^ 31)); lia.
Qed.

Lemma bind_value {A B} (m : Dec A) (f : A -> Dec B) d a d' :
  m d = Some (a, d') -> bind m f d = f a d'.
Proof. intros H. unfold bind. now rewrite H. Qed.

(** A value of fixed width, read back from its own bytes. *)
Lemma codec_fixed {A} w (dec : list byte -> A) (e : A -> list byte)
    (P : A -> Prop) :
  (forall v, length (e v) = w) ->
  (forall v, P v -> dec (e v) = v) ->
  codec w (b <- d_next w ;; ret (dec b)) e P.
Proof.
  intros Hw Hdec b k v rest Hk Pv Hs.
  assert (Hlen : (k + w <= length b)%nat).
  { apply (f_equal (@length byte)) in Hs.
    rewrite length_skipn, length_app, Hw in Hs. lia. }
  assert (Hb : bytes_at b k w = e v).
  { unfold bytes_at. rewrite Hs, <- (Hw v), firstn_app, Nat.sub_diag, firstn_all,
      firstn_O. apply app_nil_r. }
  split; [|split; [|exact Hlen]].
  - unfold bind, ret, d_next. cbn [buf offset].
    apply Nat.leb_le in Hlen. rewrite Hlen, Hb, (Hdec v Pv). reflexivity.
  - rewrite Nat.add_comm, <- skipn_skipn, Hs, <- (Hw v), skipn_app,
      Nat.sub_diag, skipn_all. reflexivity.
Qed.

Lemma codec_uint8 : codec 1 d_uint8 e_uint8 (is_uint 8).
Proof.
  apply (codec_fixed 1 (fun b => LittleEndian.index b 0)); [reflexivity|].
  intros v Hv. unfold e_uint8, LittleEndian.index. cbn [nth].
  rewrite byte.unsigned_of_Z. apply Z.mod_small. exact Hv.
Qed.

Lemma codec_uint16 : codec 2 d_uint16 e_uint16 (is_uint 16).
Proof.
  apply (codec_fixed 2 LittleEndian.Uint16); [reflexivity|].
  intros v Hv. unfold e_uint16.
  rewrite LittleEndianFacts.Uint16_PutUint16. apply Z.mod_small. exact Hv.
Qed.

Lemma codec_uint32 : codec 4 d_uint32 e_uint32 (is_uint 32).
Proof.
  apply (codec_fixed 4 LittleEndian.Uint32); [reflexivity|].
  intros v Hv. unfold e_uint32.
  rewrite LittleEndianFacts.Uint32_PutUint32. apply Z.mod_small. exact Hv.
Qed.

Lemma codec_uint64 : codec 8 d_uint64 e_uint64 (is_uint 64).
Proof.
  apply (codec_fixed 8 LittleEndian.Uint64); [reflexivity|].
  intros v Hv. unfold e_uint64.
  rewrite Uint64_PutUint64. apply Z.mod_small. exact Hv.
Qed.

Lemma codec_int32 : codec 4 d_int32 e_int32 (is_int 32).
Proof.
  intros b k v rest Hk Hv Hs. unfold e_int32 in Hs.
  assert (Hu : is_uint 32 (uint32_of_int32 v))
    by (apply Z.mod_pos_bound; lia).
  destruct (codec_uint32 b k _ rest Hk Hu Hs) as (Hd & Hs' & Hk').
  split; [|split; assumption].
  unfold d_int32. rewrite (bind_value _ _ _ _ _ Hd). unfold ret.
  now rewrite int32_of_uint32_of_int32.
Qed.

Lemma codec_array {A} w (d : Dec A) (e : A -> list byte) P n :
  codec w d e P -> codec (n * w) (d_array n d) (e_array e) (is_array n P).
Proof.
  intros Hc. induction n as [|n IH]; intros b k v rest Hk [Hlen Hall] Hs.
  - destruct v; [|discriminate]. cbn in Hs. cbn [d_array Nat.mul].
    rewrite Nat.add_0_r. unfold ret. auto.
  - destruct v as [|x xs]; [discriminate|].
    apply Forall_cons_1 in Hall as [Hx Hxs].
    unfold e_array in Hs. cbn [map concat] in Hs. rewrite <- app_assoc in Hs.
    destruct (Hc b k x _ Hk Hx Hs) as (Hd & Hs' & Hk').
    destruct (IH b (k + w)%nat xs rest Hk') as (Hd' & Hs'' & Hk'').
    { split; [cbn in Hlen; lia | exact Hxs]. }
    { exact Hs'. }
    replace (k + S n * w)%nat with (k + w + n * w)%nat by (cbn; lia).
    split; [|split; assumption].
    cbn [d_array]. rewrite (bind_value _ _ _ _ _ Hd).
    rewrite (bind_value _ _ _ _ _ Hd'). reflexivity.
Qed.

(** One field of the struct, read back from the bytes the encoder wrote for
    it. *)
Ltac decode_field :=
  lazymatch goal with
  | Hk : (?k <= length ?b)%nat, Hs : skipn ?k ?b = ?e ?v ++ ?rest
    |- _ /\ bind ?d _ {| buf := ?b; offset := ?k |} = _ =>
      let C :=
        lazymatch d with
        | d_uint8 => constr:(codec_uint8)
        | d_uint16 => constr:(codec_uint16)
        | d_uint32 => constr:(codec_uint32)
        | d_uint64 => constr:(codec_uint64)
        | d_int32 => constr:(codec_int32)
        | d_array ?n d_uint8 =>
            constr:(codec_array 1 d_uint8 e_uint8 (is_uint 8) n codec_uint8)
        | d_array ?n d_uint32 =>
            constr:(codec_array 4 d_uint32 e_uint32 (is_uint 32) n codec_uint32)
        end in
      let Hd := fresh "Hd" in
      let Hs' := fresh "Hs" in
      let Hk' := fresh "Hk" in
      destruct (C b k v rest Hk ltac:(assumption) Hs) as (Hd & Hs' & Hk');
      rewrite (bind_value _ _ _ _ _ Hd); clear Hd Hs Hk;
      cbn [Nat.add Nat.mul] in Hs', Hk'; cbn beta; cbn [Nat.add Nat.mul]
  end.

Lemma d_Superblock_e_Superblock sb :
  well_typed sb ->
  length (e_Superblock sb) = 1024%nat
  /\ d_Superblock {| buf := e_Superblock sb; offset := 0 |}
     = Some (sb, {| buf := e_Superblock sb; offset := 1024 |}).
Proof.
  intros Hwt.
  enough (Hgen : forall b,
             skipn 0 b = e_Superblock sb -> (0 <= length b)%nat ->
             length b = 1024%nat
             /\ d_Superblock {| buf := b; offset := 0 |}
                = Some (sb, {| buf := b; offset := 1024 |}))
    by (apply Hgen; [reflexivity | lia]).
  intros b Hs Hk.
  unfold e_Superblock in Hs.
  rewrite <- (app_nil_r (e_int32 (SChecksum sb))) in Hs.
  unfold well_typed in Hwt.
  repeat match type of Hwt with
         | _ /\ _ => let H := fresh "Hwt" in destruct Hwt as [H Hwt]
         end.
  unfold d_Superblock.
  repeat decode_field.
  split.
  - match goal with
    | H : skipn _ b = [] |- _ =>
        apply (f_equal (@length byte)) in H; rewrite length_skipn in H;
        cbn [length] in H; lia
    end.
  - unfold ret. destruct sb. reflexivity.
Qed.

(** X10.  Decoding undoes encoding: the encoding of a well-typed record is
    1024 bytes long, and from an in-memory reader over the encoding of a
    well-typed record with the magic [ParseSuperblock] returns that very
    record.  Every such record is therefore the decoding of some image. *)
Theorem ParseSuperblock_of_encoding (sb : Superblock) :
  well_typed sb -> SMagic sb = Ext4Magic ->
  length (e_Superblock sb) = 1024%nat
  /\ ParseSuperblock (NewReader (e_Superblock sb))
     = (Return (Some sb, None), []).
Proof.
  intros Hwt Hm. destruct (d_Superblock_e_Superblock sb Hwt) as [Hlen Hd].
  split; [exact Hlen|].
  unfold ParseSuperblock, ParseSuperblock_body, binary_Read.
  rewrite (ReadFull_NewReader_exact _ Hlen), Hd.
  cbv beta iota zeta delta [log_PanicIf].
  now rewrite Hm, Z.eqb_refl.
Qed.

(** Witness for X10: the record of a crafted image. *)
Lemma ParseSuperblock_of_encoding_witness :
  let sb := Superblock_at_offsets (image 0xEF53 2 1 4) in
  well_typed sb /\ SMagic sb = Ext4Magic
  /\ length (e_Superblock sb) = 1024%nat
  /\ ParseSuperblock (NewReader (e_Superblock sb))
     = (Return (Some sb, None), []).
Proof.
  cbv zeta.
  assert (H1 : well_typed (Superblock_at_offsets (image 0xEF53 2 1 4)))
    by (apply well_typed_at_offsets; reflexivity).
  assert (H2 : SMagic (Superblock_at_offsets (image 0xEF53 2 1 4)) = Ext4Magic)
    by (vm_compute; reflexivity).
  split; [exact H1|]. split; [exact H2|].
  exact (ParseSuperblock_of_encoding _ H1 H2).
Defined.

(** ** A name the registry does not list *)

Lemma map_index_unlisted names lookup name :
  registry_ok names lookup -> ~ In name names -> map_index lookup name = 0.
Proof.
  intros (_ & _ & Hkeys & _) Hnot. unfold map_index.
  destruct (lookup !! name) as [m|] eqn:E; [|reflexivity].
  destruct Hnot. apply Hkeys. now exists m.
Qed.

(** X11.  Indexing a lookup map with a name its category does not list gives
    the mask 0, as a Go map does for an absent key, and the predicate of the
    category is false at that mask for every record: a feature name that is
    not registered tests as absent. *)
Theorem unlisted_name_tests_false (sb : Superblock) (name : string) :
  (~ In name SbFeatureCompatNames ->
     map_index SbFeatureCompatLookup name = 0
     /\ HasCompatibleFeature sb (map_index SbFeatureCompatLookup name) = false)
  /\ (~ In name SbFeatureRoCompatNames ->
     map_index SbFeatureRoCompatLookup name = 0
     /\ HasReadonlyCompatibleFeature sb
          (map_index SbFeatureRoCompatLookup name) = false)
  /\ (~ In name SbFeatureIncompatNames ->
     map_index SbFeatureIncompatLookup name = 0
     /\ HasIncompatibleFeature sb
          (map_index SbFeatureIncompatLookup name) = false).
Proof.
  unfold HasCompatibleFeature, HasReadonlyCompatibleFeature,
    HasIncompatibleFeature.
  split; [|split]; intros Hnot.
  - rewrite (map_index_unlisted _ _ _ registry_ok_compat Hnot).
    now rewrite Z.land_0_r.
  - rewrite (map_index_unlisted _ _ _ registry_ok_ro_compat Hnot).
    now rewrite Z.land_0_r.
  - rewrite (map_index_unlisted _ _ _ registry_ok_incompat Hnot).
    now rewrite Z.land_0_r.
Qed.

(** Witness for X11: the read-only feature name "HugeFile" asked of the
    compatible category, on a record with every compatible bit set. *)
Lemma unlisted_name_tests_false_witness :
  let sb := Superblock_at_offsets (image 0xEF53 2 1 0xFFFFFFFF) in
  ~ In "HugeFile"%string SbFeatureCompatNames
  /\ SFeatureCompat sb = 0xFFFFFFFF
  /\ map_index SbFeatureCompatLookup "HugeFile" = 0
  /\ HasCompatibleFeature sb (map_index SbFeatureCompatLookup "HugeFile") = false.
Proof.
  cbv zeta.
  assert (H : ~ In "HugeFile"%string SbFeatureCompatNames)
    by (cbn [In SbFeatureCompatNames]; intuition discriminate).
  split; [exact H|]. split; [vm_compute; reflexivity|].
  exact (proj1 (unlisted_name_tests_false _ _) H).
Defined.
